(** * AI-Code-System: the dialogue controller and the scan aggregator

  A shallow embedding of [reasoner.py] and [project_manager.py], and the
  properties of the path resolver, the report extractor, the fallback
  chains and the conversation state that the design document states.

  Python [str] values are lists of characters.  A character is a code
  point below 256 (Rocq's [ascii]); the whitespace and case tables below
  are the interpreter's, restricted to that range. *)

From Stdlib Require Import ZArith QArith.QArith_base Ascii String DecimalString
  DecimalNat.
From stdpp Require Import gmap strings list.

#[local] Set Warnings "-register-all,-clear-no-such-hyp".

Local Open Scope Z_scope.
Local Open Scope list_scope.

Abbreviation str := (list ascii).

(** String literals: [$"abc"] is the [str] with the characters of "abc". *)
Notation "$ s" := (list_ascii_of_string s) (at level 1, format "$ s").

(** * Python string operations *)

Module PyStr.

Definition code (c : ascii) : N := N_of_ascii c.

(** [str.isspace] on one character; the class [\s] of [re] for [str]
    patterns, and what [strip] and [split] remove, are the same set. *)
Definition is_space (c : ascii) : bool :=
  let n := code c in
  ((9 <=? n) && (n <=? 13) || (28 <=? n) && (n <=? 32)
   || (n =? 133) || (n =? 160))%N.

Definition is_digit (c : ascii) : bool :=
  let n := code c in ((48 <=? n) && (n <=? 57))%N.

Definition is_upper (c : ascii) : bool :=
  let n := code c in
  ((65 <=? n) && (n <=? 90)
   || (192 <=? n) && (n <=? 222) && negb (n =? 215))%N.

Definition is_alpha_ascii (c : ascii) : bool :=
  let n := code c in
  ((65 <=? n) && (n <=? 90) || (97 <=? n) && (n <=? 122))%N.

Definition lower_char (c : ascii) : ascii :=
  if is_upper c then ascii_of_N (code c + 32) else c.

(** [s.lower()] *)
Definition lower (s : str) : str := map lower_char s.

Definition eqc (a b : ascii) : bool := Ascii.eqb a b.

Fixpoint eqs (a b : str) : bool :=
  match a, b with
  | [], [] => true
  | x :: a', y :: b' => eqc x y && eqs a' b'
  | _, _ => false
  end.

(** [s.startswith(p)] *)
Fixpoint startswith (p s : str) : bool :=
  match p, s with
  | [], _ => true
  | x :: p', y :: s' => eqc x y && startswith p' s'
  | _ :: _, [] => false
  end.

(** [sub in s] *)
Fixpoint contains (sub s : str) : bool :=
  startswith sub s ||
  match s with
  | [] => false
  | _ :: s' => contains sub s'
  end.

Fixpoint lstrip (s : str) : str :=
  match s with
  | c :: s' => if is_space c then lstrip s' else s
  | [] => []
  end.

Definition rstrip (s : str) : str := rev (lstrip (rev s)).

(** [s.strip()] *)
Definition strip (s : str) : str := rstrip (lstrip s).

(** [s.split()]: the maximal runs of non-whitespace characters.
    [cur] is the run being read, in reverse. *)
Fixpoint split_go (cur : str) (s : str) : list str :=
  match s with
  | [] => match cur with [] => [] | _ => [rev cur] end
  | c :: s' =>
      if is_space c
      then match cur with
           | [] => split_go [] s'
           | _ => rev cur :: split_go [] s'
           end
      else split_go (c :: cur) s'
  end.

Definition split (s : str) : list str := split_go [] s.

(** [s.split(sep)] for a one-character separator: always at least one
    piece. *)
Fixpoint split_on (sep : ascii) (s : str) : list str :=
  match s with
  | [] => [[]]
  | c :: s' =>
      if eqc c sep then [] :: split_on sep s'
      else match split_on sep s' with
           | l :: ls => (c :: l) :: ls
           | [] => [[c]]
           end
  end.

(** [sep.join(parts)] *)
Fixpoint join (sep : str) (parts : list str) : str :=
  match parts with
  | [] => []
  | [p] => p
  | p :: ps => p ++ sep ++ join sep ps
  end.

(** [s.replace(old, new)] for a non-empty [old]: the occurrences are
    taken left to right and do not overlap.  [skip] counts the characters
    of an occurrence that are still to be dropped. *)
Fixpoint replace_go (old new : str) (skip : nat) (s : str) : str :=
  match s with
  | [] => []
  | c :: s' =>
      match skip with
      | S k => replace_go old new k s'
      | O =>
          if startswith old s
          then new ++ replace_go old new (length old - 1) s'
          else c :: replace_go old new 0 s'
      end
  end.

(** With an empty [old], Python puts [new] before every character and at
    the end. *)
Definition replace (old new s : str) : str :=
  match old with
  | [] => new ++ concat (map (fun c => c :: new) s)
  | _ => replace_go old new 0 s
  end.

Definition digit_val (c : ascii) : Z := Z.of_N (code c) - 48.

(** The digits of a decimal literal after the sign: digits, with single
    underscores allowed between two digits.  Returns the value and the
    number of digits read; [prev_digit] tells whether the previous
    character was a digit. *)
Fixpoint int_digits (acc : Z) (n : nat) (prev_digit : bool) (s : str)
  : option (Z * nat) :=
  match s with
  | [] => if prev_digit then Some (acc, n) else None
  | c :: s' =>
      if is_digit c then int_digits (10 * acc + digit_val c) (S n) true s'
      else if eqc c "_"%char
           then if prev_digit then int_digits acc n false s' else None
           else None
  end.

(** [int(s)] for a [str] [s]: [None] stands for [ValueError].
    [max_str_digits] is the interpreter's limit on the number of digits
    ([sys.get_int_max_str_digits()], 0 for no limit). *)
Definition py_int (max_str_digits : nat) (s : str) : option Z :=
  let body := strip s in
  let '(neg, ds) :=
    match body with
    | c :: r =>
        if eqc c "-"%char then (true, r)
        else if eqc c "+"%char then (false, r)
        else (false, body)
    | [] => (false, body)
    end in
  match int_digits 0 0 false ds with
  | Some (v, n) =>
      if negb (Nat.eqb max_str_digits 0) && Nat.ltb max_str_digits n
      then None
      else Some (if neg then - v else v)
  | None => None
  end.

End PyStr.

Import PyStr.

(** * Regular expressions

  The fragment of Python's [re] that the program uses, with the
  backtracking order of [re]: a greedy star tries the longest run first,
  a lazy one the shortest, and [search] takes the leftmost start. *)

Module Re.

Inductive regex : Type :=
| Eps
| Chr (p : ascii -> bool)              (* one character of a class *)
| Seq (r1 r2 : regex)
| StarG (p : ascii -> bool)            (* [p*] *)
| StarL (p : ascii -> bool)            (* [p*?] *)
| Group (r : regex)                    (* [( r )], group 1 *)
| Look (alts : list str) (at_end : bool) (* [(?=a|b)], [(?=a|\Z)] *)
| Dollar.                              (* [$] without MULTILINE *)

(** A literal word. *)
Definition lit (w : str) : regex :=
  fold_right (fun c r => Seq (Chr (eqc c)) r) Eps w.

Definition is_nil (s : str) : bool :=
  match s with [] => true | _ => false end.

(** [p*] before a continuation [k]: the longest run of [p] first, then
    the shorter ones. *)
Fixpoint star_greedy {R : Type} (p : ascii -> bool) (k : str -> option R)
    (t : str) : option R :=
  match t with
  | c :: t' =>
      if p c
      then match star_greedy p k t' with
           | Some x => Some x
           | None => k t
           end
      else k t
  | [] => k t
  end.

(** [p*?] before a continuation [k]: the empty run first, then the longer
    ones. *)
Fixpoint star_lazy {R : Type} (p : ascii -> bool) (k : str -> option R)
    (t : str) : option R :=
  match k t with
  | Some x => Some x
  | None =>
      match t with
      | c :: t' => if p c then star_lazy p k t' else None
      | [] => None
      end
  end.

(** [rmatch r s cap k]: match [r] at the start of [s]; [k] receives what
    is left of [s] and the text of group 1, and may refuse, which makes
    the matcher try its next alternative. *)
Fixpoint rmatch {R : Type} (r : regex) (s : str) (cap : option str)
    (k : str -> option str -> option R) : option R :=
  match r with
  | Eps => k s cap
  | Chr p =>
      match s with
      | c :: s' => if p c then k s' cap else None
      | [] => None
      end
  | Seq r1 r2 => rmatch r1 s cap (fun s1 cap1 => rmatch r2 s1 cap1 k)
  | StarG p => star_greedy p (fun t => k t cap) s
  | StarL p => star_lazy p (fun t => k t cap) s
  | Group r1 =>
      rmatch r1 s cap
        (fun s1 _ => k s1 (Some (take (length s - length s1) s)))
  | Look alts at_end =>
      if existsb (fun a => startswith a s) alts || at_end && is_nil s
      then k s cap else None
  | Dollar =>
      if is_nil s || eqs s ["010"%char] then k s cap else None
  end.

(** A match object: [group(0)] and [group(1)]. *)
Record match_obj : Type := { group0 : str; group1 : option str }.

Definition match_at (r : regex) (s : str) : option match_obj :=
  rmatch r s None
    (fun s' cap =>
       Some {| group0 := take (length s - length s') s; group1 := cap |}).

(** [re.search(r, s)]: the first position, from the left, where [r]
    matches; the end of the text is a position too. *)
Fixpoint search (r : regex) (s : str) : option match_obj :=
  match match_at r s with
  | Some m => Some m
  | None =>
      match s with
      | [] => None
      | _ :: s' => search r s'
      end
  end.

(** The capture of group 1, empty when the group took no part, as
    [m.group(1)] is used by the program. *)
Definition grp1 (m : match_obj) : str := default [] (group1 m).

Definition any_char (c : ascii) : bool := true.
Definition non_space (c : ascii) : bool := negb (is_space c).

End Re.

Import Re.

(** * Python values, exceptions and effects *)

Module Py.

(** The values that [json.loads] produces and that the scan bundles are
    made of.  A dictionary keeps its entries in insertion order.  JSON
    numbers are taken to be integers. *)
Inductive value : Type :=
| VNone
| VBool (b : bool)
| VInt (z : Z)
| VStr (s : str)
| VList (l : list value)
| VDict (d : list (str * value)).

(** The truth value of an object, as [if x:] and [x and y] test it. *)
Definition truthy (v : value) : bool :=
  match v with
  | VNone => false
  | VBool b => b
  | VInt z => negb (z =? 0)
  | VStr s => negb (is_nil s)
  | VList l => match l with [] => false | _ => true end
  | VDict d => match d with [] => false | _ => true end
  end.

(** [d.get(key)]: the first entry with that key. *)
Fixpoint dict_get (d : list (str * value)) (key : str) : option value :=
  match d with
  | [] => None
  | (k, v) :: d' => if eqs k key then Some v else dict_get d' key
  end.

(** [d[key] = v]: replaces the value in place or appends the key. *)
Fixpoint dict_set (d : list (str * value)) (key : str) (v : value)
  : list (str * value) :=
  match d with
  | [] => [(key, v)]
  | (k, v0) :: d' =>
      if eqs k key then (k, v) :: d' else (k, v0) :: dict_set d' key v
  end.

Inductive exn : Type :=
| AttributeError (attr : str)
| IndexError
| RecursionError
| ServiceError (msg : str).

Inductive res (A : Type) : Type :=
| Ok (a : A)
| Raise (e : exn).
Arguments Ok {A} a.
Arguments Raise {A} e.

(** A computation that reads and changes a state [St] and may raise; the
    state reached when it raises is kept. *)
Definition M (St A : Type) : Type := St -> res A * St.

Definition ret {St A} (a : A) : M St A := fun st => (Ok a, st).
Definition raise {St A} (e : exn) : M St A := fun st => (Raise e, st).
Definition bind {St A B} (m : M St A) (f : A -> M St B) : M St B :=
  fun st =>
    match m st with
    | (Ok a, st') => f a st'
    | (Raise e, st') => (Raise e, st')
    end.
Definition get {St} : M St St := fun st => (Ok st, st).
Definition put {St} (st : St) : M St unit := fun _ => (Ok tt, st).

(** A value-returning call that cannot raise. *)
Definition call {St A} (f : St -> A * St) : M St A :=
  fun st => let '(a, st') := f st in (Ok a, st').

(** Run a computation on the second component of a pair of states. *)
Definition on_world {S1 W A} (m : M W A) : M (S1 * W) A :=
  fun st =>
    let '(r, w') := m (snd st) in (r, (fst st, w')).

End Py.

Import Py.

Notation "x <- c ;; k" := (bind c (fun x => k))
(at level 100, c at next level, right associativity).
Notation "c ;;; k" := (bind c (fun _ => k))
(at level 100, right associativity).

(** * The environment: file system, subprocesses, the completion service *)

(** [os.path] and [os.getcwd]. *)
Class OsPath : Type := {
path_exists : str -> bool;
path_isdir : str -> bool;
path_abspath : str -> str;
path_join : str -> str -> str;
path_expanduser : str -> str;
path_dirname : str -> str;
getcwd : str;
module_file : str                       (* [__file__] *)
}.

(** What [subprocess.run(..., capture_output=True, text=True)] returns. *)
Record completed_process : Type := {
returncode : Z;
stdout : str;
stderr : str
}.

(** The services outside the program, over a world [W] that they read and
  change.  A failing call gives the text of its exception. *)
Class Services (W : Type) : Type := {
(* [client.chat.completions.create(model, messages, temperature)] and
   then [.choices[0].message.content] *)
chat_create : str -> list (str * str) -> Q -> W -> res str * W;
(* [subprocess.run(cmd, timeout=t)]: [inl] is [str(e)] of what it raised *)
subprocess_run : list str -> Z -> W -> (str + completed_process) * W;
(* [json.loads]: [inl] is [str(e)] of the decoding error *)
json_loads : str -> str + value;
(* [json.dumps(v, indent=2)] *)
json_dumps : value -> str;
(* the probes of [ProjectManager] that walk and read the project tree;
   each takes [base_path] *)
detect_languages : str -> W -> value * W;
get_file_structure : str -> W -> value * W;
analyze_file_contents : str -> W -> list (str * str) * W;
_identify_potential_issues : str -> W -> list str * W;
_find_dependency_files : str -> W -> value * W;
_manual_dependency_checks : str -> W -> list str * W
}.

(** * project_manager.py *)

Module ProjectManager.
Section WithEnvironment.

Context {os : OsPath} {W : Type} {sv : Services W}.

Record t : Type := { base_path : str; semgrep_path : str }.

(** [ProjectManager.__init__] *)
Definition init (path : str) : t :=
  {| base_path :=
       if startswith $"~" path then path_expanduser path else path;
     semgrep_path :=
       path_join (path_join (path_join (path_dirname module_file) $"venv")
                    $"Scripts") $"semgrep.exe" |}.

Definition framework_indicators : list (str * list str) :=
  [ ($"flask", [$"from flask"; $"import Flask"; $"@app.route"; $"flask.Flask"]);
    ($"django", [$"from django"; $"DJANGO_SETTINGS"; $"django.db"; $"django.contrib"]);
    ($"fastapi", [$"from fastapi"; $"import FastAPI"; $"fastapi.FastAPI"]);
    ($"express", [$"require(" ++ ["034"%char] ++ $"express" ++ ["034"%char] ++ $")";
                  $"const express ="; $"express()"]);
    ($"react", [$"import React"; $"react-dom"; $"JSX"; $"useState"]);
    ($"vue", [$"import Vue"; $"new Vue"; $"vue-create"]);
    ($"angular", [$"@angular"; $"import { Component }"; $"angular.module"]) ].

(** The dictionaries that [run_scan] and [run_audit] return are given by
    their entries.

    [detect_frameworks]: every content of [code_content] is a [str]. *)
Definition detect_frameworks (code_content : list (str * str)) : list str :=
  let detected : gset str :=
    foldl (fun acc fc =>
             foldl (fun acc fi =>
                      if existsb (fun indicator =>
                                    contains (lower indicator) (lower (snd fc)))
                           (snd fi)
                      then {[ fst fi ]} ∪ acc else acc)
               acc framework_indicators)
      ∅ code_content in
  elements detected.

(** The body that the six invocation strategies share:
    [result = subprocess.run(cmd, timeout=...)], the JSON of its output
    when it exits with 0, else an [error] dictionary; whatever is raised
    becomes [{"error": str(e)}]. *)
Definition run_json_tool (cmd : list str) (timeout : Z)
    (with_returncode : bool) : M W value :=
  result <- call (subprocess_run cmd timeout) ;;
  match result with
  | inl e => ret (VDict [($"error", VStr e)])
  | inr result =>
      if returncode result =? 0
      then match json_loads (stdout result) with
           | inr v => ret v
           | inl e => ret (VDict [($"error", VStr e)])
           end
      else ret (VDict (($"error", VStr (stderr result)) ::
                       if with_returncode
                       then [($"returncode", VInt (returncode result))]
                       else []))
  end.

Definition _run_semgrep_basic (self : t) : M W value :=
  run_json_tool
    [semgrep_path self; $"--pattern"; $"def $F(...): ..."; $"--json";
     base_path self] 120 true.

Definition _run_semgrep_security (self : t) : M W value :=
  run_json_tool
    [semgrep_path self; $"--config"; $"p/security-audit"; $"--json";
     base_path self] 180 false.

Definition _run_semgrep_auto (self : t) : M W value :=
  run_json_tool
    [semgrep_path self; $"--config"; $"auto"; $"--json"; base_path self]
    180 false.

Definition _run_osv_audit_standard (self : t) : M W value :=
  run_json_tool [$"osv-scanner"; $"--json"; base_path self] 120 true.

Definition _run_osv_audit_recursive (self : t) : M W value :=
  run_json_tool [$"osv-scanner"; $"--recursive"; $"--json"; base_path self]
    120 false.

Definition _run_osv_audit_lockfile (self : t) : M W value :=
  run_json_tool [$"osv-scanner"; $"--lockfile"; base_path self; $"--json"]
    120 false.

(** [result and not result.get("error")]: a falsy result is refused
    before [.get] is looked up; a truthy one that is no dictionary has no
    [.get]. *)
Definition accepted (result : value) : res bool :=
  if truthy result
  then match result with
       | VDict d =>
           Ok (negb (match dict_get d $"error" with
                     | Some e => truthy e
                     | None => false
                     end))
       | _ => Raise (AttributeError $"get")
       end
  else Ok false.

(** The loop [for strategy in strategies: ... return result]; [None]
    when the loop ends without returning. *)
Fixpoint try_strategies (strategies : list (M W value))
  : M W (option value) :=
  match strategies with
  | [] => ret None
  | strategy :: rest =>
      result <- strategy ;;
      ok <- (fun w => (accepted result, w)) ;;
      if ok : bool then ret (Some result) else try_strategies rest
  end.

Definition semgrep_failure : value :=
  VDict [($"error", VStr $"All Semgrep scanning strategies failed");
         ($"suggested_fix",
          VStr $"Check Semgrep installation: pip install semgrep")].

Definition osv_failure : value :=
  VDict [($"error", VStr $"All OSV-Scanner strategies failed");
         ($"suggested_fix",
          VStr $"Install OSV-Scanner: winget install Google.OSVScanner")].

Definition _run_semgrep_with_fallback (self : t) : M W value :=
  found <- try_strategies
             [_run_semgrep_basic self; _run_semgrep_security self;
              _run_semgrep_auto self] ;;
  match found with
  | Some result => ret result
  | None => ret semgrep_failure
  end.

Definition _run_osv_audit_with_fallback (self : t) : M W value :=
  found <- try_strategies
             [_run_osv_audit_standard self; _run_osv_audit_recursive self;
              _run_osv_audit_lockfile self] ;;
  match found with
  | Some result => ret result
  | None => ret osv_failure
  end.

Definition contents_value (code_content : list (str * str)) : value :=
  VDict (map (fun fc => (fst fc, VStr (snd fc))) code_content).

Definition run_scan (self : t) : M W (list (str * value)) :=
  languages <- call (detect_languages (base_path self)) ;;
  structure <- call (get_file_structure (base_path self)) ;;
  file_contents <- call (analyze_file_contents (base_path self)) ;;
  semgrep_scan <- _run_semgrep_with_fallback self ;;
  potential_issues <- call (_identify_potential_issues (base_path self)) ;;
  let results :=
    [($"languages", languages);
     ($"structure", structure);
     ($"file_contents", contents_value file_contents);
     ($"semgrep_scan", semgrep_scan);
     ($"potential_issues", VList (map VStr potential_issues))] in
  ret (match dict_get results $"file_contents" with
       | Some _ =>
           dict_set results $"detected_frameworks"
             (VList (map VStr (detect_frameworks file_contents)))
       | None => results
       end).

Definition run_audit (self : t) : M W (list (str * value)) :=
  osv_scanner <- _run_osv_audit_with_fallback self ;;
  dependency_files <- call (_find_dependency_files (base_path self)) ;;
  manual_checks <- call (_manual_dependency_checks (base_path self)) ;;
  ret [($"osv_scanner", osv_scanner);
       ($"dependency_files", dependency_files);
       ($"manual_checks", VList (map VStr manual_checks))].

Definition version_updates : list (str * str) :=
  [($"requests", $">=2.31.0");
   ($"flask", $">=2.3.3");
   ($"django", $">=4.2.4");
   ($"numpy", $">=1.24.0");
   ($"setuptools", $">=68.0.0")].

(** The inner loop over [version_updates.items()]: the replacement of
    the first package whose pin the line starts with. *)
Fixpoint updated_line (updates : list (str * str)) (line : str)
  : option str :=
  match updates with
  | [] => None
  | (pkg, new_version) :: rest =>
      if startswith (pkg ++ $"==") line then Some (pkg ++ new_version)
      else updated_line rest line
  end.

(** One turn of the loop over the lines. *)
Definition fix_line (line : str) : str :=
  let line := strip line in
  if is_nil line || startswith $"#" line then line
  else match updated_line version_updates line with
       | Some l => l
       | None => line
       end.

Definition generate_requirements_fix (current_content : str) : str :=
  if is_nil current_content
  then $"# No requirements.txt content available for fixing"
  else join ["010"%char]
         (map fix_line (split_on "010"%char current_content)).

End WithEnvironment.
End ProjectManager.

(** * reasoner.py *)

Module Reasoner.
Section WithEnvironment.

Context {os : OsPath} {W : Type} {sv : Services W}.

(** [sys.get_int_max_str_digits()] of the interpreter, 0 for no limit. *)
Variable max_str_digits : nat.

(** The fields of a [Reasoner] that change; [client], [coder] and
    [security_tools] are fixed at construction. *)
Record t : Type := {
  project_manager : option ProjectManager.t;
  current_context : str;
  current_project_path : option str;
  ambiguous_paths : list str;
  waiting_for_path_selection : bool;
  original_request : str
}.

(** [Reasoner.__init__] *)
Definition init : t :=
  {| project_manager := None;
     current_context := [];
     current_project_path := None;
     ambiguous_paths := [];
     waiting_for_path_selection := false;
     original_request := [] |}.

Definition set_project_manager (v : option ProjectManager.t) (self : t) : t :=
  {| project_manager := v;
     current_context := current_context self;
     current_project_path := current_project_path self;
     ambiguous_paths := ambiguous_paths self;
     waiting_for_path_selection := waiting_for_path_selection self;
     original_request := original_request self |}.

Definition set_current_context (v : str) (self : t) : t :=
  {| project_manager := project_manager self;
     current_context := v;
     current_project_path := current_project_path self;
     ambiguous_paths := ambiguous_paths self;
     waiting_for_path_selection := waiting_for_path_selection self;
     original_request := original_request self |}.

Definition set_current_project_path (v : option str) (self : t) : t :=
  {| project_manager := project_manager self;
     current_context := current_context self;
     current_project_path := v;
     ambiguous_paths := ambiguous_paths self;
     waiting_for_path_selection := waiting_for_path_selection self;
     original_request := original_request self |}.

Definition set_ambiguous_paths (v : list str) (self : t) : t :=
  {| project_manager := project_manager self;
     current_context := current_context self;
     current_project_path := current_project_path self;
     ambiguous_paths := v;
     waiting_for_path_selection := waiting_for_path_selection self;
     original_request := original_request self |}.

Definition set_waiting_for_path_selection (v : bool) (self : t) : t :=
  {| project_manager := project_manager self;
     current_context := current_context self;
     current_project_path := current_project_path self;
     ambiguous_paths := ambiguous_paths self;
     waiting_for_path_selection := v;
     original_request := original_request self |}.

Definition set_original_request (v : str) (self : t) : t :=
  {| project_manager := project_manager self;
     current_context := current_context self;
     current_project_path := current_project_path self;
     ambiguous_paths := ambiguous_paths self;
     waiting_for_path_selection := waiting_for_path_selection self;
     original_request := v |}.

Definition security_tools : list (str * list str) :=
  [ ($"Python", [$"bandit"; $"safety"; $"pylint"]);
    ($"JavaScript", [$"npm audit"; $"eslint"; $"snyk"]);
    ($"Java", [$"spotbugs"; $"dependency-check"]);
    ($"Go", [$"gosec"; $"staticcheck"]);
    ($"Ruby", [$"brakeman"; $"bundler-audit"]);
    ($"PHP", [$"phpcs"; $"phpmd"]);
    ($"C#", [$"security-code-scan"]);
    ($"C/C++", [$"cppcheck"; $"flawfinder"]) ].

Definition dq : str := ["034"%char].
Definition nl : str := ["010"%char].

(** ** deduplicate_recommendations *)

(** The loop over [lines]; the result is what the loop appends to
    [unique_lines]. *)
Fixpoint dedup_loop (seen : gset str) (lines : list str) : list str :=
  match lines with
  | [] => []
  | line :: rest =>
      let clean_line := strip line in
      if negb (is_nil clean_line) && bool_decide (clean_line ∉ seen)
      then line :: dedup_loop ({[ clean_line ]} ∪ seen) rest
      else dedup_loop seen rest
  end.

Definition deduplicate_recommendations (text : str) : str :=
  if is_nil text then text
  else join nl (dedup_loop ∅ (split_on "010"%char text)).

(** ** extract_path *)

Definition backslash_or_s (c : ascii) : bool :=
  eqc c "\"%char || eqc c "s"%char.

(** The five patterns, in the order of [path_patterns].  In the raw
    strings of the source the class [[^\s]] of the first pattern excludes
    whitespace, while [[\\s]] and [[^\\s]] of the others are the classes
    of a backslash and the letter s. *)
Definition path_patterns : list regex :=
  [ (* \/[^\s]*\/[^\s]* *)
    Seq (Chr (eqc "/")) (Seq (StarG non_space)
      (Seq (Chr (eqc "/")) (StarG non_space)));
    (* [A-Za-z]:\\[^\\s]* *)
    Seq (Chr is_alpha_ascii) (Seq (Chr (eqc ":")) (Seq (Chr (eqc "\"))
      (StarG (fun c => negb (backslash_or_s c)))));
    (* project[\\s][^\\s]* *)
    Seq (lit $"project") (Seq (Chr backslash_or_s)
      (StarG (fun c => negb (backslash_or_s c))));
    (* directory[\\s][^\\s]* *)
    Seq (lit $"directory") (Seq (Chr backslash_or_s)
      (StarG (fun c => negb (backslash_or_s c))));
    (* path[\\s][^\\s]* *)
    Seq (lit $"path") (Seq (Chr backslash_or_s)
      (StarG (fun c => negb (backslash_or_s c)))) ].

(** [path.replace("project ", "").replace("directory ", "").replace("path ", "")] *)
Definition clean_path (path : str) : str :=
  replace $"path " [] (replace $"directory " [] (replace $"project " [] path)).

(** The loop over [path_patterns]: the cleaned text of the first pattern
    that is found in [user_input]. *)
Fixpoint first_pattern (patterns : list regex) (user_input : str)
  : option str :=
  match patterns with
  | [] => None
  | pattern :: rest =>
      match search pattern user_input with
      | Some m => Some (clean_path (group0 m))
      | None => first_pattern rest user_input
      end
  end.

Definition stop_words : list str :=
  [$"analyze"; $"scan"; $"review"; $"check"; $"project"; $"directory";
   $"path"; $"for"; $"the"; $"a"; $"an"; $"security"; $"issues";
   $"1"; $"2"; $"3"; $"4"; $"5"].

Definition in_list (w : str) (l : list str) : bool := existsb (eqs w) l.

(** What one word adds to [potential_paths]. *)
Definition word_paths (word : str) : gset str :=
  (if path_exists word && path_isdir word
   then {[ path_abspath word ]} else ∅)
  ∪
  (let potential_path := path_join getcwd word in
   if path_exists potential_path && path_isdir potential_path
   then {[ path_abspath potential_path ]} else ∅).

(** The loop over [words]. *)
Fixpoint scan_words (potential_paths : gset str) (words : list str)
  : gset str :=
  match words with
  | [] => potential_paths
  | word :: rest =>
      if in_list (lower word) stop_words
      then scan_words potential_paths rest
      else scan_words (potential_paths ∪ word_paths word) rest
  end.

Definition AMBIGUOUS : str := $"AMBIGUOUS".

Definition extract_path (self : t) (user_input : str) : option str * t :=
  match first_pattern path_patterns user_input with
  | Some path => (Some path, self)
  | None =>
      let potential_paths := elements (scan_words ∅ (split user_input)) in
      match potential_paths with
      | [] => (None, self)
      | [path] => (Some path, self)
      | _ => (Some AMBIGUOUS, set_ambiguous_paths potential_paths self)
      end
  end.

(** ** handle_path_selection *)

Definition invalid_selection : str :=
  $"QUESTION: Invalid selection. Please choose a number from the list.".

Definition invalid_path : str :=
  $"QUESTION: Please enter a valid number from the list or provide a full path.".

Definition clear_selection (self : t) : t :=
  set_waiting_for_path_selection false (set_ambiguous_paths [] self).

Definition handle_path_selection (self : t) (user_input : str)
  : res str * t :=
  match py_int max_str_digits (strip user_input) with
  | Some n =>
      let selection := n - 1 in
      if (0 <=? selection) && (selection <? Z.of_nat (length (ambiguous_paths self)))
      then match ambiguous_paths self !! Z.to_nat selection with
           | Some selected_path => (Ok selected_path, clear_selection self)
           | None => (Raise IndexError, self)
           end
      else (Ok invalid_selection, self)
  | None =>
      if path_exists user_input && path_isdir user_input
      then (Ok user_input, clear_selection self)
      else (Ok invalid_path, self)
  end.

(** ** run_language_specific_scans *)

Fixpoint tools_of (language : str) (table : list (str * list str))
  : option (list str) :=
  match table with
  | [] => None
  | (l, tools) :: rest =>
      if eqs l language then Some tools else tools_of language rest
  end.

Definition run_language_specific_scans (languages : list str)
  : list (str * value) :=
  foldl (fun results language =>
           match tools_of language security_tools with
           | Some tools =>
               foldl (fun results tool =>
                        dict_set results (language ++ $"_" ++ tool)
                          (VStr ($"Would run " ++ tool ++ $" scan")))
                 results tools
           | None => results
           end)
    [] languages.

(** ** The texts that [analyze] and [generate_fix_code] build *)

Definition context_text (user_input scan_results audit_results language_specific_results : str) : str :=
  $"
                USER REQUEST: " ++
  user_input ++
  $"
                PROJECT SCAN RESULTS: " ++
  scan_results ++
  $"
                VULNERABILITY AUDIT RESULTS: " ++
  audit_results ++
  $"
                LANGUAGE SPECIFIC SCANS: " ++
  language_specific_results ++
  $"
                ".

Definition assessment_prompt (current_context : str) : str :=
  $"
                Analyze this software project comprehensively and provide a detailed security assessment.

                " ++
  current_context ++
  $"

                Based on this comprehensive analysis, you must:
                1. Identify any security vulnerabilities or issues
                2. Assess the overall code quality and security posture
                3. Recommend specific fixes or improvements
                4. Provide a security risk rating (High/Medium/Low)
                5. Suggest appropriate security tools to run based on the project's tech stack

                If the analysis results are empty or incomplete, suggest better scanning approaches.
                If you can provide a comprehensive assessment, do so.
                If critical information is missing, ask precise, targeted questions.

                Respond in this exact format:
                ASSESSMENT: [Comprehensive security assessment]
                RISK_LEVEL: [High/Medium/Low]
                RECOMMENDATIONS: [Specific recommendations]
                QUESTIONS: [Any remaining questions or null if none]
                ".

Definition report_text (risk_level assessment recommendations : str) : str :=
  $"
SECURITY ASSESSMENT REPORT
==========================
Risk Level: " ++
  risk_level ++
  $"

Assessment:
" ++
  assessment ++
  $"

Recommendations:
" ++
  recommendations ++
  $"
".

Definition fixes_text (fix_code : str) : str :=
  $"

AUTOMATED FIXES:
================
Here's code to implement the recommendations:

" ++
  fix_code ++
  $"
".

Definition completeness_prompt (user_input : str) : str :=
  $"
            Analyze the following user request for a coding task. Your job is to decide if it has enough specific details to write code immediately.

            USER REQUEST: " ++
  dq ++
  user_input ++
  dq ++
  $"

            If the request is VAGUE or MISSING critical details (like target programming language, framework, key functionality, or specific parameters), respond with a single, clear follow-up question asking for the most important missing piece of information.
            If the request is COMPLETE and ACTIONABLE, respond with the word: " ++
  dq ++
  $"CODE_GENERATION_APPROVED" ++
  dq ++
  $".

            Respond only with the follow-up question or " ++
  dq ++
  $"CODE_GENERATION_APPROVED" ++
  dq ++
  $".
            ".

Definition optimization_prompt (user_input : str) : str :=
  $"
                The following user request has been approved for code generation. Your job is to rewrite it into a clear, concise, and highly effective prompt for an AI code generator.

                Original User Request: " ++
  dq ++
  user_input ++
  dq ++
  $"

                Instructions for optimization:
                1. Remove any greetings, filler words, or vague phrases.
                2. Make it an imperative command (e.g., " ++
  dq ++
  $"Write a Python function..." ++
  dq ++
  $").
                3. Specify the programming language if it's implied but not stated.
                4. Add key details like input parameters and return values if missing.
                5. Make it as short as possible while being unambiguous.

                Respond only with the optimized prompt.
                ".

Definition fix_code_prompt (recommendations : str) : str :=
  $"
        Based on the following security recommendations, generate Python code or shell commands to implement these fixes.
        Focus on actionable code that can be run to address the issues.

        RECOMMENDATIONS:
        " ++
  recommendations ++
  $"

        Generate code that:
        1. Updates dependency files (like requirements.txt)
        2. Runs security scanning tools
        3. Fixes configuration issues
        4. Implements any other actionable recommendations

        Provide the code in a format that can be easily executed.
        ".


(** ** The report fields (the four searches of [analyze]) *)

(** [LABEL:\s*(.*?)(?=NEXT:|\Z)] with [re.DOTALL] *)
Definition section_re (label next : str) : regex :=
  Seq (lit label) (Seq (StarG is_space)
    (Seq (Group (StarL any_char)) (Look [next] true))).

(** [QUESTIONS:\s*( .* )$] with [re.DOTALL] (the group is [.*]) *)
Definition questions_re : regex :=
  Seq (lit $"QUESTIONS:") (Seq (StarG is_space)
    (Seq (Group (StarG any_char)) Dollar)).

(** [m.group(1).strip() if m else default] *)
Definition field (m : option match_obj) (default : str) : str :=
  match m with
  | Some m => strip (grp1 m)
  | None => default
  end.

Record report : Type := {
  assessment : str;
  risk_level : str;
  recommendations : str;
  questions : str
}.

Definition parse_report (decision : str) : report :=
  let assessment_match :=
    search (section_re $"ASSESSMENT:" $"RISK_LEVEL:") decision in
  let risk_match :=
    search (section_re $"RISK_LEVEL:" $"RECOMMENDATIONS:") decision in
  let recommendations_match :=
    search (section_re $"RECOMMENDATIONS:" $"QUESTIONS:") decision in
  let questions_match := search questions_re decision in
  {| assessment := field assessment_match $"No assessment provided";
     risk_level := field risk_match $"Unknown";
     recommendations := field recommendations_match $"No recommendations";
     questions := field questions_match $"null" |}.

(** ** generate_fix_code and Coder.generate_code *)

Definition generate_fix_code (recommendations : str) : M W (option str) :=
  if is_nil recommendations || eqs recommendations $"No recommendations"
  then ret None
  else fun w =>
         match chat_create $"deepseek-coder"
                 [($"user", fix_code_prompt recommendations)] (1 # 10) w with
         | (Ok content, w') => (Ok (Some (strip content)), w')
         | (Raise _, w') => (Ok None, w')
         end.

Definition coder_system_prompt : str :=
  $"You are an expert Python developer. Generate clean, efficient, and correct code based on the user's request. Return only the code, without explanations or markdown formatting.".

Definition generate_code (prompt : str) : M W str :=
  chat_create $"deepseek-coder"
    [($"system", coder_system_prompt); ($"user", prompt)] (7 # 10).

(** ** analyze *)

Definition get_self : M (t * W) t := fun st => (Ok (fst st), st).
Definition modify_self (f : t -> t) : M (t * W) unit :=
  fun st => (Ok tt, (f (fst st), snd st)).
(** A method of [self] that returns a value. *)
Definition method {A} (f : t -> A * t) : M (t * W) A :=
  fun st => let '(a, self') := f (fst st) in (Ok a, (self', snd st)).
(** A method of [self] that may raise. *)
Definition method_res {A} (f : t -> res A * t) : M (t * W) A :=
  fun st => let '(r, self') := f (fst st) in (r, (self', snd st)).

Definition project_keywords : list str :=
  [$"project"; $"directory"; $"file"; $"scan"; $"audit"; $"fix";
   $"vulnerability"; $"review"; $"analyze"; $"check"; $"security"].

Definition str_of_nat (n : nat) : str :=
  list_ascii_of_string (NilZero.string_of_uint (Nat.to_uint n)).

(** [f"{i+1}. {path}"] for [i, path] in [enumerate(paths)], from [i]. *)
Fixpoint numbered (i : nat) (paths : list str) : list str :=
  match paths with
  | [] => []
  | path :: rest =>
      (str_of_nat (i + 1) ++ $". " ++ path) :: numbered (S i) rest
  end.

Definition ambiguity_question (paths : list str) : str :=
  $"QUESTION: I found multiple directories with that name. Which one did you mean?"
  ++ nl ++ join nl (numbered 0 paths) ++ nl ++ $"Please enter the number:".

Definition bad_path_question (project_path : str) : str :=
  $"QUESTION: The path '" ++ project_path ++
  $"' doesn't exist or is not a directory. Please provide a valid path.".

Definition no_path_question : str :=
  $"QUESTION: Please provide the path to the project you want me to analyze.".

(** The language-specific scans of a scan bundle: run only when the
    bundle has a truthy [languages_detected] entry, whose [.keys()] are
    then the languages. *)
Definition language_scans (scan_results : list (str * value))
  : res (list (str * value)) :=
  match dict_get scan_results $"languages_detected" with
  | Some v =>
      if truthy v
      then match v with
           | VDict languages =>
               Ok (run_language_specific_scans (map fst languages))
           | _ => Raise (AttributeError $"keys")
           end
      else Ok []
  | None => Ok []
  end.

(** The project branch of [analyze] once the path is known to be a
    directory: scans, one assessment request, the report. *)
Definition assess_project (user_input project_path : str) : M (t * W) str :=
  modify_self (set_current_project_path (Some project_path)) ;;;
  let pm := ProjectManager.init project_path in
  modify_self (set_project_manager (Some pm)) ;;;
  scan_results <- on_world (ProjectManager.run_scan pm) ;;
  audit_results <- on_world (ProjectManager.run_audit pm) ;;
  language_specific_results <-
    (fun st => (language_scans scan_results, st)) ;;
  let context :=
    context_text user_input (json_dumps (VDict scan_results))
      (json_dumps (VDict audit_results))
      (json_dumps (VDict language_specific_results)) in
  modify_self (set_current_context context) ;;;
  content <- on_world (chat_create $"deepseek-reasoner"
                         [($"user", assessment_prompt context)] (1 # 10)) ;;
  let decision := strip content in
  let r := parse_report decision in
  fix_code <-
    (if eqs (recommendations r) $"No recommendations" then ret None
     else on_world (generate_fix_code (recommendations r))) ;;
  let final_response :=
    report_text (risk_level r) (assessment r) (recommendations r) ++
    match fix_code with
    | Some code => if is_nil code then [] else fixes_text code
    | None => []
    end in
  if negb (eqs (questions r) $"null")
  then ret ($"QUESTION: " ++ questions r ++ nl ++ nl ++ final_response)
  else ret final_response.

(** The branch of [analyze] for requests that are not about a project. *)
Definition coding_request (user_input : str) : M (t * W) str :=
  content <- on_world (chat_create $"deepseek-reasoner"
                         [($"user", completeness_prompt user_input)] (1 # 10)) ;;
  let decision := strip content in
  if eqs decision $"CODE_GENERATION_APPROVED"
  then
    content <- on_world (chat_create $"deepseek-reasoner"
                           [($"user", optimization_prompt user_input)] (1 # 10)) ;;
    let optimized_prompt := strip content in
    on_world (generate_code optimized_prompt)
  else ret ($"QUESTION: " ++ decision).

Definition is_project_request (user_input : str) : bool :=
  existsb (fun keyword => contains keyword (lower user_input))
    project_keywords.

(** [analyze] from the test for ambiguity on, [project_path] being what
    [extract_path] returned. *)
Definition after_extraction (user_input : str) (project_path : option str)
  : M (t * W) str :=
  if match project_path with Some p => eqs p AMBIGUOUS | None => false end
  then
    modify_self (set_waiting_for_path_selection true) ;;;
    self <- get_self ;;
    ret (ambiguity_question (ambiguous_paths self))
  else
    let has_path :=
      match project_path with Some p => negb (is_nil p) | None => false end in
    if is_project_request user_input || has_path
    then
      match project_path with
      | Some project_path =>
          if is_nil project_path then ret no_path_question
          else if negb (path_exists project_path)
                  || negb (path_isdir project_path)
          then ret (bad_path_question project_path)
          else assess_project user_input project_path
      | None => ret no_path_question
      end
    else coding_request user_input.

(** [analyze] from the line that stores the request, that is, when no
    path selection is awaited. *)
Definition analyze_request (user_input : str) : M (t * W) str :=
  modify_self (set_original_request user_input) ;;;
  project_path <- method (fun self => extract_path self user_input) ;;
  after_extraction user_input project_path.

(** [analyze]; [depth] bounds the nesting of its calls to itself, and
    running out of it is Python's [RecursionError]. *)
Fixpoint analyze (depth : nat) (user_input : str) : M (t * W) str :=
  match depth with
  | O => raise RecursionError
  | S depth' =>
      self <- get_self ;;
      if waiting_for_path_selection self
      then
        path_result <-
          method_res (fun self => handle_path_selection self user_input) ;;
        if startswith $"QUESTION:" path_result
        then ret path_result
        else
          modify_self (set_current_project_path (Some path_result)) ;;;
          self <- get_self ;;
          analyze depth' (original_request self)
      else analyze_request user_input
  end.

End WithEnvironment.
End Reasoner.

(** * project_manager.py: the language census

    [detect_languages] as a function of what [os.walk] yields; the field
    of that name in [Services] is this function together with the walk. *)

Module LanguageCensus.

Definition language_extensions : list (str * str) :=
  [ ($".py", $"Python"); ($".js", $"JavaScript"); ($".ts", $"TypeScript");
    ($".java", $"Java"); ($".cpp", $"C++"); ($".c", $"C"); ($".cs", $"C#");
    ($".php", $"PHP"); ($".rb", $"Ruby"); ($".go", $"Go"); ($".rs", $"Rust");
    ($".swift", $"Swift"); ($".kt", $"Kotlin"); ($".html", $"HTML");
    ($".css", $"CSS"); ($".scss", $"SCSS"); ($".xml", $"XML");
    ($".json", $"JSON"); ($".yml", $"YAML"); ($".yaml", $"YAML") ].

(** The longest prefix without a dot, and what follows it. *)
Fixpoint span_no_dot (s : str) : str * str :=
  match s with
  | [] => ([], [])
  | c :: s' =>
      if eqc c "."%char then ([], s)
      else let '(a, b) := span_no_dot s' in (c :: a, b)
  end.

(** [os.path.splitext] of a file name, which has no separator: the
    extension starts at the last dot, unless only dots come before it. *)
Definition splitext (p : str) : str * str :=
  let '(ext_rev, rest) := span_no_dot (rev p) in
  match rest with
  | _ :: before_rev =>
      if forallb (fun c => eqc c "."%char) before_rev then (p, [])
      else (rev before_rev, "."%char :: rev ext_rev)
  | [] => (p, [])
  end.

(** [language_extensions[ext]] when [ext in language_extensions] *)
Fixpoint language_of (table : list (str * str)) (ext : str) : option str :=
  match table with
  | [] => None
  | (e, language) :: rest =>
      if eqs e ext then Some language else language_of rest ext
  end.

(** [language_counts.get(language, 0)] *)
Fixpoint count_of (counts : list (str * Z)) (language : str) : Z :=
  match counts with
  | [] => 0
  | (l, n) :: rest => if eqs l language then n else count_of rest language
  end.

(** [language_counts[language] = n] *)
Fixpoint set_count (counts : list (str * Z)) (language : str) (n : Z)
  : list (str * Z) :=
  match counts with
  | [] => [(language, n)]
  | (l, m) :: rest =>
      if eqs l language then (l, n) :: rest
      else (l, m) :: set_count rest language n
  end.

(** One turn of the inner loop, on [(language_counts, file_count)]. *)
Definition count_file (st : list (str * Z) * Z) (file : str)
  : list (str * Z) * Z :=
  let ext := snd (splitext file) in
  match language_of language_extensions ext with
  | Some language =>
      (set_count (fst st) language (count_of (fst st) language + 1),
       snd st + 1)
  | None => st
  end.

(** The two loops over the entries [(root, dirs, files)] of the walk. *)
Definition census (entries : list (str * list str * list str))
  : list (str * Z) * Z :=
  foldl (fun st entry => foldl count_file st (snd entry)) ([], 0) entries.

(** [walk] is what [os.walk(self.base_path)] yields, or the text of what
    it raised. *)
Definition detect_languages (walk : str + list (str * list str * list str))
  : value :=
  match walk with
  | inr entries =>
      let '(language_counts, file_count) := census entries in
      VDict [($"languages",
              VDict (map (fun c => (fst c, VInt (snd c))) language_counts));
             ($"total_files", VInt file_count)]
  | inl e => VDict [($"error", VStr e)]
  end.

End LanguageCensus.

(** * augment.py *)

Module Augment.
Section WithEnvironment.

Context {os : OsPath} {W : Type} {sv : Services W}.

(** [sys.get_int_max_str_digits()] of the interpreter, 0 for no limit. *)
Variable max_str_digits : nat.

(** How [send_to_reasoner] ends: with the final response, with what
    [analyze] raised, or at the end of the user's input, where [input]
    raises. *)
Inductive outcome : Type :=
| Final (response : str)
| Failed (e : exn)
| EndOfInput.

(** [send_to_reasoner], the state being that of [self.reasoner]; [stdin]
    holds the lines that the user is going to type and [depth] is the
    room for the nested calls of each [analyze].  What the loop prints is
    left out. *)
Fixpoint send_to_reasoner (depth : nat) (stdin : list str)
    (user_request : str) (st : Reasoner.t * W)
  : outcome * (Reasoner.t * W) :=
  match Reasoner.analyze max_str_digits depth user_request st with
  | (Ok response, st') =>
      if startswith $"QUESTION:" response
      then match stdin with
           | user_answer :: stdin' =>
               send_to_reasoner depth stdin'
                 (user_request ++ $" " ++ user_answer) st'
           | [] => (EndOfInput, st')
           end
      else (Final response, st')
  | (Raise e, st') => (Failed e, st')
  end.

End WithEnvironment.
End Augment.

Arguments Reasoner.in_list : simpl never.
Arguments Reasoner.stop_words : simpl never.
Arguments Reasoner.path_patterns : simpl never.
Arguments Reasoner.AMBIGUOUS : simpl never.
Arguments Reasoner.is_project_request : simpl never.
Arguments Reasoner.no_path_question : simpl never.
Arguments Reasoner.invalid_selection : simpl never.
Arguments Reasoner.invalid_path : simpl never.

(** * The vocabulary of the properties *)

(** A word names a directory when it does so as it stands or under the
    current directory: the two tests of the word loop of [extract_path]. *)
Definition names_directory {os : OsPath} (word : str) : bool :=
  path_exists word && path_isdir word
  || path_exists (path_join getcwd word) && path_isdir (path_join getcwd word).

(** The shape of an absolute path: a leading separator, or a drive. *)
Definition absolute (p : str) : bool :=
  match p with
  | c :: r =>
      eqc c "/" || eqc c "\"
      || match r with c2 :: _ => eqc c2 ":" | [] => false end
  | [] => false
  end.

(** No pattern of [path_patterns] is found in the text. *)
Definition no_path_shape (user_input : str) : Prop :=
  Reasoner.first_pattern Reasoner.path_patterns user_input = None.

(** The path shapes as the comments beside the patterns and the design
    document word them: a Unix path, a drive-letter path, and one of the
    keywords followed by one whitespace character and a token without
    whitespace.  They are [Reasoner.path_patterns] with the classes after
    the drive and after the keywords read as those of whitespace. *)
Definition documented_path_shapes : list regex :=
  [ Seq (Chr (eqc "/")) (Seq (StarG non_space)
      (Seq (Chr (eqc "/")) (StarG non_space)));
    Seq (Chr is_alpha_ascii) (Seq (Chr (eqc ":")) (Seq (Chr (eqc "\"))
      (StarG non_space)));
    Seq (lit $"project") (Seq (Chr is_space) (StarG non_space));
    Seq (lit $"directory") (Seq (Chr is_space) (StarG non_space));
    Seq (lit $"path") (Seq (Chr is_space) (StarG non_space)) ].

(** No substring of [user_input] has one of the documented shapes. *)
Definition no_documented_path_shape (user_input : str) : Prop :=
  Reasoner.first_pattern documented_path_shapes user_input = None.

(** The conversation-state invariant. *)
Definition selection_invariant (self : Reasoner.t) : Prop :=
  Reasoner.ambiguous_paths self <> [] <->
  Reasoner.waiting_for_path_selection self = true.

(** The text after the first occurrence of [label]. *)
Fixpoint after_label (label s : str) : option str :=
  if startswith label s then Some (drop (length label) s)
  else match s with
       | [] => None
       | _ :: s' => after_label label s'
       end.

(** The text before the first occurrence of one of [labels], all of it
    when there is none. *)
Fixpoint before_labels (labels : list str) (s : str) : str :=
  if existsb (fun l => startswith l s) labels then []
  else match s with
       | [] => []
       | c :: s' => c :: before_labels labels s'
       end.

(** A labelled section as the design document words it: everything after
    the label up to the next of the labels that follow it, or the end. *)
Definition labelled_section (label : str) (later : list str)
    (default text : str) : str :=
  match after_label label text with
  | Some t => strip (before_labels later t)
  | None => default
  end.

(** A strategy result that the fallback chain returns: a non-empty
    dictionary whose [error] entry is missing or falsy. *)
Definition acceptable (d : list (str * value)) : bool :=
  negb (match d with [] => true | _ => false end)
  && negb (match dict_get d $"error" with
           | Some e => truthy e
           | None => false
           end).

Definition has_key (d : list (str * value)) (key : str) : bool :=
  match dict_get d key with Some _ => true | None => false end.

Definition value_has_key (v : value) (key : str) : bool :=
  match v with VDict d => has_key d key | _ => false end.

(** [chain_run refused strategies w w']: run in turn from the world [w],
    every strategy gives a dictionary of which [refused] holds, and the
    last one leaves the world [w']. *)
Inductive chain_run {W : Type} (refused : list (str * value) -> bool)
  : list (M W value) -> W -> W -> Prop :=
| chain_nil w : chain_run refused [] w w
| chain_cons strategy rest w d w1 w2 :
    strategy w = (Ok (VDict d), w1) ->
    refused d = true ->
    chain_run refused rest w1 w2 ->
    chain_run refused (strategy :: rest) w w2.

(** Every strategy gives a dictionary that the chain does not return. *)
Definition refused_run {W : Type} : list (M W value) -> W -> W -> Prop :=
  chain_run (fun d => negb (acceptable d)).

(** The lines that [deduplicate_recommendations] keeps, said without the
    set: a line stays when its stripped form is not empty and is the
    stripped form of no line in [earlier]. *)
Fixpoint first_occurrences (earlier lines : list str) : list str :=
  match lines with
  | [] => []
  | line :: rest =>
      if negb (is_nil (strip line))
         && negb (Reasoner.in_list (strip line) (map strip earlier))
      then line :: first_occurrences (earlier ++ [line]) rest
      else first_occurrences (earlier ++ [line]) rest
  end.

(** Deduplication as the design document words it: blank lines go, and
    so does every line equal to an earlier one. *)
Fixpoint exact_first_occurrences (earlier lines : list str) : list str :=
  match lines with
  | [] => []
  | line :: rest =>
      if negb (is_nil line) && negb (Reasoner.in_list line earlier)
      then line :: exact_first_occurrences (earlier ++ [line]) rest
      else exact_first_occurrences (earlier ++ [line]) rest
  end.

Definition deduplicate_exact (text : str) : str :=
  join Reasoner.nl (exact_first_occurrences [] (split_on "010"%char text)).

(** The manifest rewriting as the design document words it: comment and
    blank lines as they are, a pinned known package rewritten, every other
    line as it is. *)
Definition fix_line_verbatim (line : str) : str :=
  if is_nil line || startswith $"#" line then line
  else match ProjectManager.updated_line ProjectManager.version_updates line with
       | Some l => l
       | None => line
       end.

Definition requirements_fix_verbatim (text : str) : str :=
  join Reasoner.nl (map fix_line_verbatim (split_on "010"%char text)).

(** The texts that a match of a pattern can cover, lookaheads and
    anchors covering nothing. *)
Fixpoint consumes (r : regex) (m : str) : Prop :=
  match r with
  | Eps => m = []
  | Chr p => exists c, m = [c] /\ p c = true
  | Seq r1 r2 => exists m1 m2, m = m1 ++ m2 /\ consumes r1 m1 /\ consumes r2 m2
  | StarG p | StarL p => Forall (fun c => p c = true) m
  | Group r1 => consumes r1 m
  | Look _ _ | Dollar => m = []
  end.

(** The characters that the cleaning of a matched path cannot remove, and
    one of which every match has. *)
Definition survivor (c : ascii) : bool :=
  eqc c "/" || eqc c ":" || Reasoner.backslash_or_s c.

(** A computation that leaves the candidate list and the selection flag
    as they were, whatever it returns. *)
Definition keeps_selection {W A : Type} (m : M (Reasoner.t * W) A) : Prop :=
  forall st,
    Reasoner.ambiguous_paths (fst (snd (m st))) = Reasoner.ambiguous_paths (fst st)
    /\ Reasoner.waiting_for_path_selection (fst (snd (m st)))
       = Reasoner.waiting_for_path_selection (fst st).

(** An indicator of the framework entry [fi] occurs in [content], letter
    case apart. *)
Definition indicated (content : str) (fi : str * list str) : bool :=
  existsb (fun indicator => contains (lower indicator) (lower content)) (snd fi).

(** The sum of the counts of a census. *)
Definition census_total (counts : list (str * Z)) : Z :=
  foldr Z.add 0 (map snd counts).

(** What [count_file] keeps: the file count is the sum of the counts,
    no language is listed twice, and no count is below 1. *)
Definition census_invariant (st : list (str * Z) * Z) : Prop :=
  snd st = census_total (fst st)
  /\ NoDup (map fst (fst st))
  /\ forall k m, (k, m) ∈ fst st -> 1 <= m.

(** * A concrete environment

    A small file system, and services that log the commands and models
    they are asked for; no scanner is installed. *)

Module Demo.

Definition dirs : list str :=
  [$"/proj"; $"/home/u/app"; $"/srv/app"; $"lib"; $"security"; $"1"].

Definition os : OsPath := {|
  path_exists p := Reasoner.in_list p dirs;
  path_isdir p := Reasoner.in_list p dirs;
  path_abspath p := if startswith $"/" p then p else $"/home/u/" ++ p;
  path_join a b := if startswith $"/" b then b else a ++ $"/" ++ b;
  path_expanduser p := p;
  path_dirname p := $"/opt/tool";
  getcwd := $"/home/u";
  module_file := $"/opt/tool/project_manager.py"
|}.

Definition reply : str :=
  $"ASSESSMENT: ok
RISK_LEVEL: Low
RECOMMENDATIONS: patch X
QUESTIONS: null".

Definition sv : Services (list str) := {|
  chat_create model messages temperature w := (Ok reply, w ++ [model]);
  subprocess_run cmd timeout w :=
    (inl $"[Errno 2] No such file or directory", w ++ [default [] (head cmd)]);
  json_loads s := inl $"Expecting value";
  json_dumps v := $"{}";
  detect_languages p w := (VDict [($"languages", VDict []); ($"total_files", VInt 0)], w);
  get_file_structure p w := (VDict [($"files", VList []); ($"directories", VList [])], w);
  analyze_file_contents p w := ([($"app.py", $"from flask import Flask")], w);
  _identify_potential_issues p w := ([], w);
  _find_dependency_files p w := (VDict [], w);
  _manual_dependency_checks p w := ([], w)
|}.

(** Services whose subprocesses exit with status 1 and say nothing. *)
Definition quiet_sv : Services (list str) := {|
  chat_create model messages temperature w := (Ok reply, w ++ [model]);
  subprocess_run cmd timeout w :=
    (inr {| returncode := 1; stdout := []; stderr := [] |},
     w ++ [default [] (head cmd)]);
  json_loads s := inl $"Expecting value";
  json_dumps v := $"{}";
  detect_languages p w := (VDict [], w);
  get_file_structure p w := (VDict [], w);
  analyze_file_contents p w := ([], w);
  _identify_potential_issues p w := ([], w);
  _find_dependency_files p w := (VDict [], w);
  _manual_dependency_checks p w := ([], w)
|}.

(** Three strategies over a log of the strategies that were run: the
    first fails, the other two succeed. *)
Definition logged (name : str) (result : value) : M (list str) value :=
  fun w => (Ok result, w ++ [name]).

Definition strategies : list (M (list str) value) :=
  [logged $"basic" (VDict [($"error", VStr $"exit status 2")]);
   logged $"security" (VDict [($"results", VList [])]);
   logged $"auto" (VDict [($"results", VList [VInt 1])])].

(** A controller that awaits a selection among three candidates. *)
Definition awaiting_state : Reasoner.t :=
  Reasoner.set_waiting_for_path_selection true
    (Reasoner.set_ambiguous_paths [$"/home/u/app"; $"/srv/app"; $"/proj"]
       Reasoner.init).

(** A reply of the reasoning service without a risk level. *)
Definition reply_without_risk : str :=
  $"ASSESSMENT: ok
RECOMMENDATIONS: patch X
QUESTIONS: null".

(** A manifest with a comment, a pin and a line with trailing blanks. *)
Definition manifest : str :=
  $"# pinned
  requests==2.25.1  # old
pytest  ".

(** Services whose subprocesses exit with status 0 and print a JSON
    array. *)
Definition array_sv : Services (list str) := {|
  chat_create model messages temperature w := (Ok reply, w ++ [model]);
  subprocess_run cmd timeout w :=
    (inr {| returncode := 0; stdout := $"[1]"; stderr := [] |},
     w ++ [default [] (head cmd)]);
  json_loads s := inr (VList [VInt 1]);
  json_dumps v := $"{}";
  detect_languages p w := (VDict [], w);
  get_file_structure p w := (VDict [], w);
  analyze_file_contents p w := ([], w);
  _identify_potential_issues p w := ([], w);
  _find_dependency_files p w := (VDict [], w);
  _manual_dependency_checks p w := ([], w)
|}.

(** Services whose subprocesses exit with status 0 and print a JSON
    object. *)
Definition object_sv : Services (list str) := {|
  chat_create model messages temperature w := (Ok reply, w ++ [model]);
  subprocess_run cmd timeout w :=
    (inr {| returncode := 0; stdout := $"{}"; stderr := [] |},
     w ++ [default [] (head cmd)]);
  json_loads s := inr (VDict [($"results", VList [])]);
  json_dumps v := $"{}";
  detect_languages p w := (VDict [], w);
  get_file_structure p w := (VDict [], w);
  analyze_file_contents p w := ([], w);
  _identify_potential_issues p w := ([], w);
  _find_dependency_files p w := (VDict [], w);
  _manual_dependency_checks p w := ([], w)
|}.

End Demo.

(** * Facts about strings *)

Section StringFacts.

Lemma eqc_true a b : eqc a b = true <-> a = b.
Proof. unfold eqc. apply Ascii.eqb_eq. Qed.

Lemma eqc_refl a : eqc a a = true.
Proof. by apply eqc_true. Qed.

Lemma eqs_true a b : eqs a b = true <-> a = b.
Proof.
  revert b. induction a as [|x a IH]; intros [|y b]; simpl; try done.
  rewrite andb_true_iff, eqc_true, IH. split.
  - by intros [-> ->].
  - by intros [= -> ->].
Qed.

Lemma eqs_refl a : eqs a a = true.
Proof. by apply eqs_true. Qed.

Lemma eqs_false a b : eqs a b = false <-> a <> b.
Proof.
  rewrite <- eqs_true. destruct (eqs a b); split; congruence.
Qed.

Lemma in_list_true w l : Reasoner.in_list w l = true <-> w ∈ l.
Proof.
  unfold Reasoner.in_list. rewrite existsb_exists. split.
  - intros (x & Hx & Heq). apply eqs_true in Heq. subst.
    by apply list_elem_of_In.
  - intros Hin. exists w. split; [by apply list_elem_of_In | apply eqs_refl].
Qed.

Lemma startswith_true p s : startswith p s = true <-> exists r, s = p ++ r.
Proof.
  revert s. induction p as [|x p IH]; intros s; simpl.
  - split; [by exists s | done].
  - destruct s as [|y s].
    + split; [done | by intros [r Hr]].
    + rewrite andb_true_iff, eqc_true, IH. split.
      * intros [-> [r ->]]. by exists r.
      * intros [r [= -> ->]]. split; [done | by exists r].
Qed.

Lemma startswith_cons x p y s :
  startswith (x :: p) (y :: s) = eqc x y && startswith p s.
Proof. done. Qed.

Lemma startswith_nil_r x p : startswith (x :: p) [] = false.
Proof. done. Qed.

Lemma contains_unfold sub s :
  contains sub s
  = startswith sub s || match s with [] => false | _ :: s' => contains sub s' end.
Proof. by destruct s. Qed.

Lemma startswith_app p r : startswith p (p ++ r) = true.
Proof. apply startswith_true. by exists r. Qed.

Lemma startswith_drop p s :
  startswith p s = true -> s = p ++ drop (length p) s.
Proof.
  intros [r ->]%startswith_true. by rewrite drop_app_length.
Qed.

Lemma lstrip_app_spaces ws s :
  Forall (fun c => is_space c = true) ws -> lstrip (ws ++ s) = lstrip s.
Proof.
  induction 1 as [|c ws Hc _ IH]; simpl; [done|]. by rewrite Hc.
Qed.

(** [lstrip] removes a run of whitespace and stops at the first other
    character. *)
Lemma lstrip_split s :
  exists ws, s = ws ++ lstrip s /\ Forall (fun c => is_space c = true) ws.
Proof.
  induction s as [|c s (ws & Hs & Hws)]; simpl.
  - by exists [].
  - destruct (is_space c) eqn:Hc.
    + exists (c :: ws). split; [by rewrite Hs at 1 | by constructor].
    + by exists [].
Qed.

Lemma lstrip_idem s : lstrip (lstrip s) = lstrip s.
Proof.
  induction s as [|c s IH]; simpl; [done|].
  destruct (is_space c) eqn:Hc; [done|]. simpl. by rewrite Hc.
Qed.

Lemma strip_lstrip s : strip (lstrip s) = strip s.
Proof. unfold strip. by rewrite lstrip_idem. Qed.

Lemma strip_app_spaces ws s :
  Forall (fun c => is_space c = true) ws -> strip (ws ++ s) = strip s.
Proof. intros H. unfold strip. by rewrite lstrip_app_spaces. Qed.

End StringFacts.

Arguments startswith : simpl never.
Arguments eqs : simpl never.
Arguments eqc : simpl never.
Arguments contains : simpl never.

(** * Facts about the matcher *)

Section RegexFacts.

(** What the matcher hands to its continuation is what is left after a
    text that the pattern covers. *)
Lemma rmatch_sound (r : regex) :
  forall (R : Type) (s : str) (cap : option str)
         (k : str -> option str -> option R) (x : R),
    rmatch r s cap k = Some x ->
    exists m s' cap', s = m ++ s' /\ consumes r m /\ k s' cap' = Some x.
Proof.
  induction r as [|p|r1 IH1 r2 IH2|p|p|r1 IH1|alts at_end|];
    intros R s cap k x H; simpl in H.
  - exists [], s, cap. by simpl.
  - destruct s as [|c s]; [done|]. destruct (p c) eqn:Hp; [|done].
    exists [c], s, cap. simpl. eauto.
  - apply IH1 in H as (m1 & s1 & cap1 & -> & Hm1 & H).
    apply IH2 in H as (m2 & s2 & cap2 & -> & Hm2 & H).
    exists (m1 ++ m2), s2, cap2. rewrite <- app_assoc. simpl. eauto 10.
  - induction s as [|c s IHs]; simpl in H.
    + exists [], [], cap. by simpl.
    + destruct (p c) eqn:Hp.
      * destruct (star_greedy p _ s) as [y|] eqn:Hrec.
        -- inversion H; subst y.
           destruct (IHs eq_refl) as (m & s' & cap' & -> & Hm & Hk).
           exists (c :: m), s', cap'. simpl in *. split; [done|].
           split; [by constructor | done].
        -- exists [], (c :: s), cap. by simpl.
      * exists [], (c :: s), cap. by simpl.
  - induction s as [|c s IHs]; simpl in H.
    + destruct (k [] cap) as [y|] eqn:Hk; [|done].
      inversion H; subst y. exists [], [], cap. by simpl.
    + destruct (k (c :: s) cap) as [y|] eqn:Hk.
      * inversion H; subst y. exists [], (c :: s), cap. by simpl.
      * destruct (p c) eqn:Hp; [|done].
        destruct (IHs H) as (m & s' & cap' & -> & Hm & Hk').
        exists (c :: m), s', cap'. simpl in *. split; [done|].
        split; [by constructor | done].
  - apply IH1 in H as (m1 & s1 & cap1 & -> & Hm1 & H).
    exists m1, s1, (Some (take (length (m1 ++ s1) - length s1) (m1 ++ s1))).
    simpl. eauto.
  - destruct (existsb _ alts || at_end && is_nil s); [|done].
    exists [], s, cap. by simpl.
  - destruct (is_nil s || eqs s ["010"%char]); [|done].
    exists [], s, cap. by simpl.
Qed.

Lemma match_at_sound r s m :
  match_at r s = Some m ->
  consumes r (group0 m) /\ exists rest, s = group0 m ++ rest.
Proof.
  unfold match_at. intros H.
  apply rmatch_sound in H as (txt & s' & cap' & -> & Htxt & H).
  inversion H; subst m; simpl.
  rewrite length_app, Nat.add_sub, take_app_length. eauto.
Qed.

(** The text of a match found by [search] is covered by the pattern. *)
Lemma search_sound r s m : search r s = Some m -> consumes r (group0 m).
Proof.
  induction s as [|c s IH]; simpl; intros H.
  - destruct (match_at r []) eqn:Hm; [|done]. inversion H; subst.
    by apply match_at_sound in Hm as [? _].
  - destruct (match_at r (c :: s)) eqn:Hm.
    + inversion H; subst. by apply match_at_sound in Hm as [? _].
    + by apply IH.
Qed.

End RegexFacts.

(** * Facts about the path patterns *)

Section PatternFacts.

(** Deleting the occurrences of a word keeps every character that the
    word does not have. *)
Lemma replace_go_keeps (old : str) (c : ascii) :
  old <> [] -> c ∉ old ->
  forall (s : str) (skip : nat),
    (forall x, x ∈ take skip s -> x ∈ old) ->
    c ∈ drop skip s -> c ∈ replace_go old [] skip s.
Proof.
  intros Hne Hc. induction s as [|x s IH]; intros skip Htake Hin.
  - rewrite drop_nil in Hin. by apply elem_of_nil in Hin.
  - destruct skip as [|k]; simpl.
    + destruct (startswith old (x :: s)) eqn:Hsw.
      * apply startswith_true in Hsw as [r Hr].
        destruct old as [|o old']; [done|]. simpl in Hr.
        injection Hr as -> ->. simpl. rewrite Nat.sub_0_r.
        apply IH.
        -- intros y Hy. rewrite take_app_length in Hy. by right.
        -- rewrite drop_app_length. simpl in Hin.
           apply elem_of_cons in Hin as [->|Hin]; [by destruct Hc; left|].
           apply elem_of_app in Hin as [Hin|Hin]; [|done].
           destruct Hc. by right.
      * simpl in Hin. apply elem_of_cons in Hin as [->|Hin]; [by left|].
        right. apply IH; [|done]. intros y Hy. simpl in Hy.
        by apply elem_of_nil in Hy.
    + apply IH.
      * intros y Hy. apply Htake. simpl. by right.
      * done.
Qed.

Lemma replace_keeps (old s : str) (c : ascii) :
  old <> [] -> c ∉ old -> c ∈ s -> c ∈ replace old [] s.
Proof.
  intros Hne Hc Hin. unfold replace. destruct old as [|o old']; [done|].
  apply replace_go_keeps; try done.
  intros x Hx. simpl in Hx. by apply elem_of_nil in Hx.
Qed.

Lemma survivor_cases c :
  survivor c = true -> c = "/"%char \/ c = ":"%char \/ c = "\"%char \/ c = "s"%char.
Proof.
  unfold survivor, Reasoner.backslash_or_s.
  rewrite !orb_true_iff, !eqc_true. tauto.
Qed.

Lemma clean_path_keeps (path : str) (c : ascii) :
  survivor c = true -> c ∈ path -> c ∈ Reasoner.clean_path path.
Proof.
  intros Hs Hin. unfold Reasoner.clean_path.
  assert (forall w : str, w ∈ [$"project "; $"directory "; $"path "] ->
          w <> [] /\ c ∉ w) as Hw.
  { intros w Hw. apply survivor_cases in Hs.
    repeat (apply elem_of_cons in Hw as [->|Hw]);
      [..|by apply elem_of_nil in Hw];
      (split; [done|]); intros Hc; simpl in Hc;
      repeat (apply elem_of_cons in Hc as [->|Hc]);
      try (by apply elem_of_nil in Hc);
      destruct Hs as [?|[?|[?|?]]]; discriminate. }
  destruct (Hw $"project ") as [? ?]; [by left|].
  destruct (Hw $"directory ") as [? ?]; [by right; left|].
  destruct (Hw $"path ") as [? ?]; [by right; right; left|].
  by repeat apply replace_keeps.
Qed.

Lemma consumes_lit w m : consumes (lit w) m -> m = w.
Proof.
  revert m. induction w as [|x w IH]; intros m; simpl.
  - done.
  - intros (m1 & m2 & -> & (c & -> & Hc) & Hm2).
    apply eqc_true in Hc. subst. simpl. f_equal. by apply IH.
Qed.

(** Every match of a path pattern has a character that survives. *)
Lemma pattern_has_survivor (pattern : regex) (m : str) :
  pattern ∈ Reasoner.path_patterns -> consumes pattern m ->
  exists c, c ∈ m /\ survivor c = true.
Proof.
  unfold Reasoner.path_patterns. intros Hp.
  repeat (apply elem_of_cons in Hp as [->|Hp]);
    [..|by apply elem_of_nil in Hp].
  - intros (m1 & m2 & -> & (c & -> & Hc) & _). exists c. split; [by left|].
    apply eqc_true in Hc. by subst.
  - intros (m1 & m2 & -> & _ & (m3 & m4 & -> & (c & -> & Hc) & _)).
    exists c. split; [set_solver|]. apply eqc_true in Hc. by subst.
  - intros (m1 & m2 & -> & _ & (m3 & m4 & -> & (c & -> & Hc) & _)).
    exists c. split; [set_solver|]. unfold survivor. rewrite Hc.
    by rewrite orb_true_r.
  - intros (m1 & m2 & -> & _ & (m3 & m4 & -> & (c & -> & Hc) & _)).
    exists c. split; [set_solver|]. unfold survivor. rewrite Hc.
    by rewrite orb_true_r.
  - intros (m1 & m2 & -> & _ & (m3 & m4 & -> & (c & -> & Hc) & _)).
    exists c. split; [set_solver|]. unfold survivor. rewrite Hc.
    by rewrite orb_true_r.
Qed.

Lemma first_pattern_survivor (patterns : list regex) (user_input path : str) :
  (forall p, p ∈ patterns -> p ∈ Reasoner.path_patterns) ->
  Reasoner.first_pattern patterns user_input = Some path ->
  exists c, c ∈ path /\ survivor c = true.
Proof.
  induction patterns as [|p ps IH]; simpl; intros Hsub H; [done|].
  destruct (search p user_input) as [m|] eqn:Hm.
  - inversion H; subst path. apply search_sound in Hm.
    destruct (pattern_has_survivor p (group0 m)) as (c & Hc & Hs);
      [apply Hsub; by left | done |].
    exists c. split; [by apply clean_path_keeps | done].
  - apply IH; [|done]. intros q Hq. apply Hsub. by right.
Qed.

(** A path found by a pattern is never the word that signals ambiguity,
    and is never empty. *)
Lemma first_pattern_not_sentinel (user_input path : str) :
  Reasoner.first_pattern Reasoner.path_patterns user_input = Some path ->
  path <> Reasoner.AMBIGUOUS /\ path <> [].
Proof.
  intros H. apply first_pattern_survivor in H as (c & Hc & Hs); [|done].
  apply survivor_cases in Hs. split; intros ->.
  - unfold Reasoner.AMBIGUOUS in Hc. simpl in Hc.
    repeat (apply elem_of_cons in Hc as [->|Hc]);
      try (by apply elem_of_nil in Hc);
      destruct Hs as [?|[?|[?|?]]]; discriminate.
  - by apply elem_of_nil in Hc.
Qed.

End PatternFacts.

(** * The path resolver *)

Section PathResolver.

Context {os : OsPath}.

Lemma word_paths_empty (word : str) :
  names_directory word = false -> Reasoner.word_paths word = ∅.
Proof.
  unfold names_directory, Reasoner.word_paths.
  intros [-> ->]%orb_false_iff. by rewrite union_empty_r_L.
Qed.

(** Words that are stop words or name no directory add nothing. *)
Lemma scan_words_nothing (words : list str) (acc : gset str) :
  (forall word, word ∈ words ->
     Reasoner.in_list (lower word) Reasoner.stop_words = false ->
     names_directory word = false) ->
  Reasoner.scan_words acc words = acc.
Proof.
  induction words as [|word rest IH]; simpl; intros H; [done|].
  destruct (Reasoner.in_list (lower word) Reasoner.stop_words) eqn:Hstop.
  - apply IH. intros w Hw. apply H. by right.
  - rewrite word_paths_empty by (apply H; [by left | done]).
    rewrite union_empty_r_L. apply IH. intros w Hw. apply H. by right.
Qed.

(** Every candidate is an absolute form of some path. *)
Lemma scan_words_elem (words : list str) (acc : gset str) (x : str) :
  x ∈ Reasoner.scan_words acc words ->
  x ∈ acc \/ exists q, x = path_abspath q.
Proof.
  revert acc. induction words as [|word rest IH]; simpl; intros acc H.
  - by left.
  - destruct (Reasoner.in_list (lower word) Reasoner.stop_words).
    + by apply IH.
    + apply IH in H as [H|H]; [|by right].
      apply elem_of_union in H as [H|H]; [by left|]. right.
      unfold Reasoner.word_paths in H.
      apply elem_of_union in H as [H|H];
        match type of H with
        | _ ∈ (if ?b then _ else _) => destruct b
        end;
        try (by apply elem_of_empty in H);
        apply elem_of_singleton in H; eauto.
Qed.

Lemma absolute_not_sentinel (p : str) :
  absolute p = true -> p <> Reasoner.AMBIGUOUS.
Proof. intros H ->. discriminate. Qed.

(** The three outcomes of [extract_path]: a path that is not the word
    AMBIGUOUS, with the state as it was; nothing, with the state as it
    was; or the word AMBIGUOUS, with two or more candidates stored. *)
Lemma extract_path_cases (self : Reasoner.t) (user_input : str) :
  (forall p, absolute (path_abspath p) = true) ->
  (exists path, Reasoner.extract_path self user_input = (Some path, self)
                /\ path <> Reasoner.AMBIGUOUS /\ path <> [])
  \/ Reasoner.extract_path self user_input = (None, self)
  \/ (exists paths,
        Reasoner.extract_path self user_input
        = (Some Reasoner.AMBIGUOUS, Reasoner.set_ambiguous_paths paths self)
        /\ paths <> []).
Proof.
  intros Habs. unfold Reasoner.extract_path.
  destruct (Reasoner.first_pattern _ _) as [path|] eqn:Hpat.
  - left. exists path. split; [done|]. by apply first_pattern_not_sentinel in Hpat.
  - destruct (elements _) as [|p [|p' ps]] eqn:Hel.
    + right. by left.
    + left. exists p. split; [done|].
      assert (p ∈ Reasoner.scan_words ∅ (split user_input)) as Hin.
      { apply elem_of_elements. rewrite Hel. by left. }
      apply scan_words_elem in Hin as [Hin|[q ->]].
      * by apply elem_of_empty in Hin.
      * split; [by apply absolute_not_sentinel|].
        intros Hq. specialize (Habs q). by rewrite Hq in Habs.
    + right. right. by exists (p :: p' :: ps).
Qed.



Lemma extract_path_no_candidate (self : Reasoner.t) (user_input : str) :
  no_path_shape user_input ->
  (forall word, word ∈ split user_input ->
     Reasoner.in_list (lower word) Reasoner.stop_words = false ->
     names_directory word = false) ->
  Reasoner.extract_path self user_input = (None, self).
Proof.
  intros Hshape Hwords. unfold Reasoner.extract_path.
  rewrite Hshape, scan_words_nothing by done.
  by rewrite elements_empty.
Qed.

End PathResolver.




(** C3, the code at the failing input.  The pattern written for
    "project X" is not found in "project my-app": the character after the
    keyword has to be a backslash or an s.  The word loop then skips
    "project" and tests "my-app", and when that names no directory
    [extract_path] returns [None], not "my-app". *)
Theorem C3_keyword_phrase_not_matched
    {os : OsPath} (self : Reasoner.t) :
  names_directory $"my-app" = false ->
  no_path_shape $"project my-app"
  /\ Reasoner.extract_path self $"project my-app" = (None, self).
Proof.
  intros Hdir. assert (no_path_shape $"project my-app") as Hshape
    by (vm_compute; reflexivity).
  split; [done|]. apply extract_path_no_candidate; [done|].
  intros word Hin Hstop. vm_compute in Hin.
  repeat (apply elem_of_cons in Hin as [->|Hin]);
    [discriminate Hstop | exact Hdir | by apply elem_of_nil in Hin].
Qed.

Lemma C3_witness :
  names_directory (os := Demo.os) $"my-app" = false
  /\ Reasoner.extract_path (os := Demo.os) Reasoner.init $"project my-app"
     = (None, Reasoner.init).
Proof.
  split; [vm_compute; reflexivity|].
  apply (proj2 (C3_keyword_phrase_not_matched (os := Demo.os) Reasoner.init
                  ltac:(vm_compute; reflexivity))).
Defined.

(** C10, the code at the failing input.  A token whose lowercase form
    is a stop word is skipped by the word loop: two file systems that
    agree on what the other tokens add give the same answer, whatever they
    say about the stop words, and when none of the five patterns is found
    and the only tokens that name a directory are stop words the result
    is [None].  But the pattern written for "path X" wants a backslash or
    an s after the keyword, not whitespace, and it is found in plain
    words: "check security paths 1" has no substring of a documented path
    shape and no token other than stop words that names a directory, and
    [extract_path] returns "paths 1", not [None]. *)
Theorem C10_plain_words_taken_for_a_path (self : Reasoner.t) :
  (forall (user_input : str) (os1 os2 : OsPath),
     (forall word, word ∈ split user_input ->
        Reasoner.in_list (lower word) Reasoner.stop_words = false ->
        Reasoner.word_paths (os := os1) word
        = Reasoner.word_paths (os := os2) word) ->
     Reasoner.extract_path (os := os1) self user_input
     = Reasoner.extract_path (os := os2) self user_input)
  /\
  (forall (user_input : str) (os : OsPath),
     no_path_shape user_input ->
     (forall word, word ∈ split user_input ->
        Reasoner.in_list (lower word) Reasoner.stop_words = false ->
        names_directory word = false) ->
     Reasoner.extract_path self user_input = (None, self))
  /\
  (forall os : OsPath,
     names_directory $"paths" = false ->
     no_documented_path_shape $"check security paths 1"
     /\ (forall word, word ∈ split $"check security paths 1" ->
           Reasoner.in_list (lower word) Reasoner.stop_words = false ->
           names_directory word = false)
     /\ Reasoner.extract_path self $"check security paths 1"
        = (Some $"paths 1", self)).
Proof.
  split; [|split].
  - intros user_input os1 os2 Hagree. unfold Reasoner.extract_path.
    destruct (Reasoner.first_pattern _ _); [done|].
    assert (forall words acc,
              (forall word, word ∈ words -> word ∈ split user_input) ->
              Reasoner.scan_words (os := os1) acc words
              = Reasoner.scan_words (os := os2) acc words) as Hscan.
    { induction words as [|word rest IH]; simpl; intros acc Hsub; [done|].
      destruct (Reasoner.in_list (lower word) Reasoner.stop_words) eqn:Hstop.
      - apply IH. intros w Hw. apply Hsub. by right.
      - rewrite (Hagree word) by (try apply Hsub; by try left).
        apply IH. intros w Hw. apply Hsub. by right. }
    by rewrite Hscan.
  - intros user_input os Hshape Hwords. by apply extract_path_no_candidate.
  - intros os Hpaths. split; [vm_compute; reflexivity|]. split.
    + intros word Hin Hstop. vm_compute in Hin.
      repeat (apply elem_of_cons in Hin as [->|Hin]);
        [discriminate Hstop | discriminate Hstop | exact Hpaths
         | discriminate Hstop | by apply elem_of_nil in Hin].
    + unfold Reasoner.extract_path.
      assert (Reasoner.first_pattern Reasoner.path_patterns
                $"check security paths 1" = Some $"paths 1") as ->
        by (vm_compute; reflexivity).
      reflexivity.
Qed.

Lemma C10_witness :
  names_directory (os := Demo.os) $"security" = true
  /\ names_directory (os := Demo.os) $"1" = true
  /\ names_directory (os := Demo.os) $"paths" = false
  /\ no_documented_path_shape $"check security paths 1"
  /\ Reasoner.extract_path (os := Demo.os) Reasoner.init
       $"check security paths 1"
     = (Some $"paths 1", Reasoner.init)
  /\ Reasoner.extract_path (os := Demo.os) Reasoner.init $"check security 1"
     = (None, Reasoner.init).
Proof.
  assert (names_directory (os := Demo.os) $"paths" = false) as Hpaths
    by (vm_compute; reflexivity).
  destruct (C10_plain_words_taken_for_a_path Reasoner.init)
    as (_ & Hnone & Hfail).
  destruct (Hfail Demo.os Hpaths) as (Hshape & _ & Hcode).
  split; [vm_compute; reflexivity|]. split; [vm_compute; reflexivity|].
  split; [exact Hpaths|]. split; [exact Hshape|]. split; [exact Hcode|].
  apply (Hnone $"check security 1" Demo.os).
  - vm_compute. reflexivity.
  - intros word Hin Hstop. vm_compute in Hin.
    repeat (apply elem_of_cons in Hin as [->|Hin]);
      [discriminate Hstop..|by apply elem_of_nil in Hin].
Defined.

(** * The selection from the candidates *)

Section Selection.

Context {os : OsPath}.
Variable max_str_digits : nat.

Lemma rstrip_split (u : str) :
  exists ws, u = rstrip u ++ ws.
Proof.
  unfold rstrip. destruct (lstrip_split (rev u)) as (ws & Hu & _).
  exists (rev ws). by rewrite <- rev_app_distr, <- Hu, rev_involutive.
Qed.

Lemma lstrip_fixed (u : str) :
  lstrip u = u -> lstrip (rstrip u) = rstrip u.
Proof.
  intros Hu. destruct (rstrip_split u) as [ws Hws].
  destruct (rstrip u) as [|c r] eqn:Hr; [done|].
  rewrite Hws in Hu. simpl in *.
  destruct (is_space c) eqn:Hc; [|done].
  exfalso. destruct (lstrip_split (r ++ ws)) as (ws' & Heq & _).
  apply (f_equal length) in Hu. apply (f_equal length) in Heq.
  simpl in Hu. rewrite !length_app in Heq. rewrite length_app in Hu. lia.
Qed.

Lemma strip_idem (s : str) : strip (strip s) = strip s.
Proof.
  unfold strip. rewrite lstrip_fixed by apply lstrip_idem.
  unfold rstrip. by rewrite rev_involutive, lstrip_idem.
Qed.

Lemma py_int_strip (s : str) :
  py_int max_str_digits (strip s) = py_int max_str_digits s.
Proof. unfold py_int. by rewrite strip_idem. Qed.

Lemma py_int_one_digit (c : ascii) :
  is_digit c = true -> py_int max_str_digits [c] = Some (digit_val c).
Proof.
  intros Hd. unfold py_int.
  assert (strip [c] = [c]) as ->.
  { unfold strip, rstrip. simpl.
    assert (is_space c = false) as Hs.
    { revert Hd. unfold is_digit, is_space.
      destruct (code c) as [|p]; [done|].
      intros Hd. apply andb_true_iff in Hd as [H1 H2].
      apply N.leb_le in H1, H2.
      repeat match goal with
             | |- context [(?a <=? ?b)%N] =>
                 destruct (N.leb_spec a b); try lia
             | |- context [(?a =? ?b)%N] =>
                 destruct (N.eqb_spec a b); try lia
             end; done. }
    by rewrite Hs; simpl; rewrite Hs. }
  assert (eqc c "-" = false /\ eqc c "+" = false) as [-> ->].
  { split; apply not_true_iff_false; intros ->%eqc_true; discriminate. }
  simpl. rewrite Hd. simpl.
  destruct max_str_digits as [|[|n]]; simpl; f_equal; lia.
Qed.

End Selection.

(** C7.  What [handle_path_selection] makes of an answer.  An answer
    that parses as an integer [i] is a 1-based index: within the list it
    selects the candidate [i - 1] and clears the list and the flag; outside
    of it (0 and the negative numbers too) the answer is refused and the
    state stays as it was.  Any other answer is selected itself when it
    names an existing directory, and refused otherwise, the state again
    as it was.  Every refusal is a text that starts with QUESTION:. *)
Theorem C7_selection_from_candidates
    {os : OsPath} (max_str_digits : nat) (self : Reasoner.t) (user_input : str) :
  let paths := Reasoner.ambiguous_paths self in
  let outcome := Reasoner.handle_path_selection max_str_digits self user_input in
  (forall i, py_int max_str_digits user_input = Some i ->
     1 <= i <= Z.of_nat (length paths) ->
     exists selected,
       paths !! Z.to_nat (i - 1) = Some selected
       /\ outcome = (Ok selected, Reasoner.clear_selection self))
  /\ (forall i, py_int max_str_digits user_input = Some i ->
        i < 1 \/ Z.of_nat (length paths) < i ->
        outcome = (Ok Reasoner.invalid_selection, self))
  /\ (py_int max_str_digits user_input = None ->
      path_exists user_input && path_isdir user_input = true ->
      outcome = (Ok user_input, Reasoner.clear_selection self))
  /\ (py_int max_str_digits user_input = None ->
      path_exists user_input && path_isdir user_input = false ->
      outcome = (Ok Reasoner.invalid_path, self))
  /\ (forall A B C, paths = [A; B; C] ->
        Reasoner.handle_path_selection max_str_digits self $"2"
        = (Ok B, Reasoner.clear_selection self)
        /\ Reasoner.handle_path_selection max_str_digits self $"5"
           = (Ok Reasoner.invalid_selection, self))
  /\ startswith $"QUESTION:" Reasoner.invalid_selection = true
  /\ startswith $"QUESTION:" Reasoner.invalid_path = true
  /\ Reasoner.ambiguous_paths (Reasoner.clear_selection self) = []
  /\ Reasoner.waiting_for_path_selection (Reasoner.clear_selection self) = false.
Proof.
  intros paths outcome. subst outcome. unfold Reasoner.handle_path_selection.
  rewrite py_int_strip. fold paths.
  split; [|split; [|split; [|split; [|split]]]].
  - intros i -> Hi.
    assert ((0 <=? i - 1) && (i - 1 <? Z.of_nat (length paths)) = true) as ->.
    { apply andb_true_iff. split; [apply Z.leb_le | apply Z.ltb_lt]; lia. }
    destruct (lookup_lt_is_Some_2 paths (Z.to_nat (i - 1))) as [p Hp]; [lia|].
    exists p. by rewrite Hp.
  - intros i -> Hi.
    assert ((0 <=? i - 1) && (i - 1 <? Z.of_nat (length paths)) = false) as ->.
    { apply andb_false_iff.
      destruct Hi; [left; apply Z.leb_gt | right; apply Z.ltb_ge]; lia. }
    done.
  - by intros -> ->.
  - by intros -> ->.
  - intros A B C HABC. rewrite !py_int_strip.
    rewrite (py_int_one_digit _ "2") by done.
    rewrite (py_int_one_digit _ "5") by done.
    by rewrite HABC.
  - done.
Qed.

Lemma C7_witness :
  Reasoner.handle_path_selection (os := Demo.os) 4300 Demo.awaiting_state $" 3 "
  = (Ok $"/proj", Reasoner.init)
  /\ Reasoner.handle_path_selection (os := Demo.os) 4300 Demo.awaiting_state $"0"
     = (Ok Reasoner.invalid_selection, Demo.awaiting_state)
  /\ Reasoner.handle_path_selection (os := Demo.os) 4300 Demo.awaiting_state $"/srv/app"
     = (Ok $"/srv/app", Reasoner.init)
  /\ Reasoner.handle_path_selection (os := Demo.os) 4300 Demo.awaiting_state $"nowhere"
     = (Ok Reasoner.invalid_path, Demo.awaiting_state)
  /\ Reasoner.handle_path_selection (os := Demo.os) 4300 Demo.awaiting_state $"2"
     = (Ok $"/srv/app", Reasoner.init).
Proof.
  pose proof (fun input =>
    C7_selection_from_candidates (os := Demo.os) 4300 Demo.awaiting_state input) as T.
  split; [|split; [|split; [|split]]].
  - destruct (proj1 (T $" 3 ") 3 ltac:(vm_compute; reflexivity)
                ltac:(vm_compute; split; discriminate))
      as (p & Hp & Hout).
    vm_compute in Hp. injection Hp as <-. exact Hout.
  - apply (proj1 (proj2 (T $"0")) 0); [vm_compute; reflexivity | lia].
  - apply (proj1 (proj2 (proj2 (T $"/srv/app")))); vm_compute; reflexivity.
  - apply (proj1 (proj2 (proj2 (proj2 (T $"nowhere"))))); vm_compute; reflexivity.
  - apply (proj1 (proj2 (proj2 (proj2 (proj2 (T $"2")))))
             $"/home/u/app" $"/srv/app" $"/proj"). reflexivity.
Defined.

(** * The dialogue controller *)

Section Controller.

Context {os : OsPath} {W : Type} {sv : Services W}.
Variable max_str_digits : nat.

Lemma keeps_ret {A} (a : A) : keeps_selection (W := W) (ret a).
Proof. by intros st. Qed.

Lemma keeps_raise {A} (e : exn) : keeps_selection (W := W) (A := A) (raise e).
Proof. by intros st. Qed.

Lemma keeps_pure {A} (r : res A) :
  keeps_selection (W := W) (fun st => (r, st)).
Proof. by intros st. Qed.

Lemma keeps_on_world {A} (m : M W A) : keeps_selection (on_world m).
Proof. intros [self w]. unfold on_world. simpl. by destruct (m w). Qed.

Lemma keeps_modify (f : Reasoner.t -> Reasoner.t) :
  (forall self, Reasoner.ambiguous_paths (f self) = Reasoner.ambiguous_paths self
                /\ Reasoner.waiting_for_path_selection (f self)
                   = Reasoner.waiting_for_path_selection self) ->
  keeps_selection (W := W) (Reasoner.modify_self f).
Proof. intros Hf [self w]. simpl. apply Hf. Qed.

Lemma keeps_bind {A B} (m : M (Reasoner.t * W) A) (f : A -> M (Reasoner.t * W) B) :
  keeps_selection m -> (forall a, keeps_selection (f a)) ->
  keeps_selection (bind m f).
Proof.
  intros Hm Hf st. unfold bind. specialize (Hm st).
  destruct (m st) as [[a|e] st']; simpl in *; [|done].
  destruct (Hf a st') as [H1 H2]. rewrite H1, H2. done.
Qed.

Ltac keeps :=
  repeat first
    [ apply keeps_ret | apply keeps_raise | apply keeps_on_world
    | apply keeps_pure | apply keeps_modify; done
    | apply keeps_bind; [|intros ?]
    | progress cbv zeta
    | match goal with
      | |- keeps_selection (if ?b then _ else _) => destruct b
      | |- keeps_selection (match ?x with _ => _ end) => destruct x
      end ].

Lemma keeps_assess_project (user_input project_path : str) :
  keeps_selection (Reasoner.assess_project user_input project_path).
Proof. unfold Reasoner.assess_project. keeps. Qed.

Lemma keeps_coding_request (user_input : str) :
  keeps_selection (Reasoner.coding_request user_input).
Proof. unfold Reasoner.coding_request. keeps. Qed.


Lemma after_extraction_keeps (user_input : str) (project_path : option str) :
  project_path <> Some Reasoner.AMBIGUOUS ->
  keeps_selection (Reasoner.after_extraction user_input project_path).
Proof.
  intros Hne. unfold Reasoner.after_extraction.
  assert (match project_path with
          | Some p => eqs p Reasoner.AMBIGUOUS
          | None => false
          end = false) as ->.
  { destruct project_path as [p|]; [|done]. apply eqs_false. congruence. }
  generalize (keeps_assess_project user_input) (keeps_coding_request user_input).
  intros Ha Hc. keeps.
Qed.


Lemma analyze_request_unfold (user_input : str) (self : Reasoner.t) (w : W) :
  Reasoner.analyze_request user_input (self, w)
  = Reasoner.after_extraction user_input
      (fst (Reasoner.extract_path
              (Reasoner.set_original_request user_input self) user_input))
      (snd (Reasoner.extract_path
              (Reasoner.set_original_request user_input self) user_input), w).
Proof.
  unfold Reasoner.analyze_request, bind, Reasoner.modify_self, Reasoner.method.
  simpl. by destruct (Reasoner.extract_path _ _).
Qed.

Lemma analyze_request_selection (user_input : str) (self : Reasoner.t) (w : W) :
  (forall p, absolute (path_abspath p) = true) ->
  let self' := fst (snd (Reasoner.analyze_request user_input (self, w))) in
  (Reasoner.ambiguous_paths self' = Reasoner.ambiguous_paths self
   /\ Reasoner.waiting_for_path_selection self'
      = Reasoner.waiting_for_path_selection self)
  \/ (Reasoner.ambiguous_paths self' <> []
      /\ Reasoner.waiting_for_path_selection self' = true).
Proof.
  intros Habs self'. subst self'. rewrite analyze_request_unfold.
  destruct (extract_path_cases (Reasoner.set_original_request user_input self)
              user_input Habs)
    as [(path & -> & Hpath & _)|[->|(paths & -> & Hpaths)]]; cbn [fst snd].
  - left. apply (after_extraction_keeps user_input (Some path)). congruence.
  - left. by apply (after_extraction_keeps user_input None).
  - right. unfold Reasoner.after_extraction. rewrite eqs_refl. by simpl.
Qed.

Lemma analyze_unfold (depth : nat) (user_input : str) (self : Reasoner.t) (w : W) :
  Reasoner.analyze max_str_digits (S depth) user_input (self, w)
  = if Reasoner.waiting_for_path_selection self
    then match Reasoner.handle_path_selection max_str_digits self user_input with
         | (Ok path_result, self1) =>
             if startswith $"QUESTION:" path_result
             then (Ok path_result, (self1, w))
             else Reasoner.analyze max_str_digits depth
                    (Reasoner.original_request self1)
                    (Reasoner.set_current_project_path (Some path_result) self1, w)
         | (Raise e, self1) => (Raise e, (self1, w))
         end
    else Reasoner.analyze_request user_input (self, w).
Proof.
  simpl. unfold bind at 1. simpl.
  destruct (Reasoner.waiting_for_path_selection self); [|done].
  unfold bind at 1. unfold Reasoner.method_res. simpl.
  destruct (Reasoner.handle_path_selection _ _ _) as [[p|e] self1]; [|done].
  match goal with
  | |- context [startswith ?q p] => by destruct (startswith q p)
  end.
Qed.

Lemma handle_path_selection_state (self : Reasoner.t) (user_input : str) :
  snd (Reasoner.handle_path_selection max_str_digits self user_input) = self
  \/ snd (Reasoner.handle_path_selection max_str_digits self user_input)
     = Reasoner.clear_selection self.
Proof.
  unfold Reasoner.handle_path_selection.
  destruct (py_int _ _) as [n|].
  - destruct (_ && _); [|by left].
    destruct (_ !! _); [by right | by left].
  - destruct (_ && _); [by right | by left].
Qed.

Lemma clear_selection_invariant (self : Reasoner.t) :
  selection_invariant (Reasoner.clear_selection self).
Proof. unfold selection_invariant. simpl. split; [done | discriminate]. Qed.

Lemma handle_path_selection_invariant (self : Reasoner.t) (user_input : str) :
  selection_invariant self ->
  selection_invariant
    (snd (Reasoner.handle_path_selection max_str_digits self user_input)).
Proof.
  intros Hinv.
  destruct (handle_path_selection_state self user_input) as [-> | ->];
    [done | apply clear_selection_invariant].
Qed.

(** Every call of [analyze] keeps the invariant, whatever it returns or
    raises. *)
Lemma analyze_invariant (depth : nat) :
  (forall p, absolute (path_abspath p) = true) ->
  forall (user_input : str) (self : Reasoner.t) (w : W),
    selection_invariant self ->
    selection_invariant
      (fst (snd (Reasoner.analyze max_str_digits depth user_input (self, w)))).
Proof.
  intros Habs. induction depth as [|depth IH]; intros user_input self w Hinv.
  - done.
  - rewrite analyze_unfold.
    destruct (Reasoner.waiting_for_path_selection self) eqn:Hwait.
    + pose proof (handle_path_selection_invariant self user_input Hinv) as Hsel.
      destruct (Reasoner.handle_path_selection _ _ _) as [[p|e] self1];
        simpl in Hsel; [|done].
      destruct (startswith _ p); [done|]. by apply IH.
    + destruct (analyze_request_selection user_input self w Habs)
        as [[Hp Hw]|[Hp Hw]]; unfold selection_invariant in *.
      * by rewrite Hp, Hw.
      * by rewrite Hw.
Qed.


End Controller.




(** C6.  The candidate list is non-empty exactly when a selection is
    awaited: this holds for a new controller, and every call of [analyze]
    and of [handle_path_selection] that starts in such a state ends in
    one, whether it returns or raises.  The file system is taken to give
    absolute paths for [os.path.abspath]. *)
Theorem C6_selection_invariant
    {os : OsPath} {W : Type} {sv : Services W} (max_str_digits : nat) :
  (forall p, absolute (path_abspath p) = true) ->
  selection_invariant Reasoner.init
  /\ (forall (depth : nat) (user_input : str) (self : Reasoner.t) (w : W),
        selection_invariant self ->
        selection_invariant
          (fst (snd (Reasoner.analyze max_str_digits depth user_input (self, w)))))
  /\ (forall (self : Reasoner.t) (user_input : str),
        selection_invariant self ->
        selection_invariant
          (snd (Reasoner.handle_path_selection max_str_digits self user_input))).
Proof.
  intros Habs. split; [|split].
  - unfold selection_invariant. simpl. split; [done | discriminate].
  - intros depth. by apply analyze_invariant.
  - apply handle_path_selection_invariant.
Qed.

Lemma demo_abspath_absolute (p : str) :
  absolute (path_abspath (OsPath := Demo.os) p) = true.
Proof.
  cbn [path_abspath Demo.os].
  destruct (startswith $"/" p) eqn:Hp; [|reflexivity].
  apply startswith_true in Hp as [r ->]. reflexivity.
Qed.

Lemma C6_witness :
  let st :=
    snd (Reasoner.analyze (os := Demo.os) (sv := Demo.sv) 4300 2
           $"scan app lib" (Reasoner.init, [])) in
  selection_invariant (fst st)
  /\ Reasoner.waiting_for_path_selection (fst st) = true
  /\ selection_invariant
       (snd (Reasoner.handle_path_selection (os := Demo.os) 4300 (fst st) $"7")).
Proof.
  pose proof (C6_selection_invariant (os := Demo.os) (sv := Demo.sv) 4300
                demo_abspath_absolute) as (Hinit & Hanalyze & Hselect).
  split; [|split].
  - apply Hanalyze, Hinit.
  - vm_compute. reflexivity.
  - apply Hselect, Hanalyze, Hinit.
Defined.

(** * The report extractor *)

Section ReportFacts.

Lemma rmatch_seq {R : Type} (r1 r2 : regex) (s : str) (cap : option str)
    (k : str -> option str -> option R) :
  rmatch (Seq r1 r2) s cap k
  = rmatch r1 s cap (fun s1 cap1 => rmatch r2 s1 cap1 k).
Proof. done. Qed.

Lemma rmatch_lit {R : Type} (w s : str) (cap : option str)
    (k : str -> option str -> option R) :
  rmatch (lit w) s cap k
  = if startswith w s then k (drop (length w) s) cap else None.
Proof.
  revert s. induction w as [|x w IH]; intros s; [done|].
  destruct s as [|y s]; [done|].
  rewrite startswith_cons. cbn [lit fold_right rmatch].
  destruct (eqc x y); [|done]. apply IH.
Qed.

(** A greedy run of whitespace before a continuation that never refuses
    takes all the whitespace there is. *)
Lemma star_greedy_spaces {R : Type} (k : str -> option R) (s : str) :
  (forall t, is_Some (k t)) ->
  star_greedy is_space k s = k (lstrip s).
Proof.
  intros Hk. induction s as [|c s IH]; [done|].
  cbn [lstrip star_greedy]. destruct (is_space c); [|done].
  rewrite IH. by destruct (Hk (lstrip s)) as [x ->].
Qed.

(** A greedy run of any characters before a continuation that accepts
    the end of the text takes the whole text. *)
Lemma star_greedy_all {R : Type} (k : str -> option R) (s : str) :
  is_Some (k []) -> star_greedy any_char k s = k [].
Proof.
  intros [x Hx]. induction s as [|c s IH]; [done|].
  cbn [star_greedy any_char]. by rewrite IH, Hx.
Qed.

Lemma before_labels_unfold (labels : list str) (s : str) :
  before_labels labels s
  = if existsb (fun l => startswith l s) labels then []
    else match s with
         | [] => []
         | c :: s' => c :: before_labels labels s'
         end.
Proof. by destruct s. Qed.

Lemma after_label_unfold (label s : str) :
  after_label label s
  = if startswith label s then Some (drop (length label) s)
    else match s with
         | [] => None
         | _ :: s' => after_label label s'
         end.
Proof. by destruct s. Qed.

(** A lazy run before a test for a label or the end, and a continuation
    that never refuses, stops at the first place where the test holds.
    [u] is the text where the run started and [pre] what it has passed. *)
Lemma star_lazy_section {R : Type} (next u : str)
    (k : str -> option str -> option R) :
  (forall t c, is_Some (k t c)) ->
  forall t pre, u = pre ++ t ->
    star_lazy any_char
      (fun s1 =>
         if existsb (fun a => startswith a s1) [next] || true && is_nil s1
         then k s1 (Some (take (length u - length s1) u)) else None) t
    = k (drop (length (before_labels [next] t)) t)
        (Some (pre ++ before_labels [next] t)).
Proof.
  intros Hk. induction t as [|c t IH]; intros pre Hu.
  - rewrite before_labels_unfold. cbn [star_lazy is_nil].
    rewrite orb_true_r, Hu, app_nil_r, Nat.sub_0_r, firstn_all.
    destruct (existsb _ _); cbn [length drop]; rewrite app_nil_r;
      by destruct (Hk [] (Some pre)) as [x ->].
  - rewrite before_labels_unfold. cbn [star_lazy is_nil].
    rewrite andb_false_r, orb_false_r.
    destruct (existsb _ [next]).
    + rewrite Hu at 1 2. rewrite length_app, Nat.add_sub, take_app_length.
      rewrite app_nil_r. cbn [length drop].
      by destruct (Hk (c :: t) (Some pre)) as [x ->].
    + cbn [any_char]. rewrite (IH (pre ++ [c])) by by rewrite <- app_assoc.
      by rewrite <- app_assoc.
Qed.

Lemma rmatch_section_body {R : Type} (next u : str) (cap : option str)
    (k : str -> option str -> option R) :
  (forall t c, is_Some (k t c)) ->
  rmatch (Seq (Group (StarL any_char)) (Look [next] true)) u cap k
  = k (drop (length (before_labels [next] u)) u)
      (Some (before_labels [next] u)).
Proof.
  intros Hk. cbn [rmatch]. by rewrite (star_lazy_section next u k Hk u []).
Qed.

Lemma rmatch_spaces {R : Type} (s : str) (cap : option str)
    (k : str -> option str -> option R) :
  (forall t, is_Some (k t cap)) ->
  rmatch (StarG is_space) s cap k = k (lstrip s) cap.
Proof. intros Hk. cbn [rmatch]. by rewrite star_greedy_spaces. Qed.

Lemma rmatch_to_end {R : Type} (u : str) (cap : option str)
    (k : str -> option str -> option R) :
  (forall t c, is_Some (k t c)) ->
  rmatch (Seq (Group (StarG any_char)) Dollar) u cap k = k [] (Some u).
Proof.
  intros Hk. cbn [rmatch]. rewrite star_greedy_all; cbn [is_nil orb].
  - by rewrite Nat.sub_0_r, firstn_all.
  - done.
Qed.

(** At a given place, the section pattern matches exactly when the label
    is there, and group 1 is then the text from after the whitespace that
    follows the label up to the next label or the end. *)
Lemma match_at_section (label next s : str) :
  option_map grp1 (match_at (Reasoner.section_re label next) s)
  = if startswith label s
    then Some (before_labels [next] (lstrip (drop (length label) s)))
    else None.
Proof.
  unfold match_at, Reasoner.section_re.
  rewrite rmatch_seq, rmatch_lit. destruct (startswith label s); [|done].
  rewrite rmatch_seq, rmatch_spaces.
  - by rewrite rmatch_section_body.
  - intros t. by rewrite rmatch_section_body.
Qed.

Lemma search_unfold (r : regex) (s : str) :
  search r s
  = match match_at r s with
    | Some m => Some m
    | None => match s with [] => None | _ :: s' => search r s' end
    end.
Proof. by destruct s. Qed.

Lemma search_section (label next s : str) :
  option_map grp1 (search (Reasoner.section_re label next) s)
  = option_map (fun t => before_labels [next] (lstrip t)) (after_label label s).
Proof.
  induction s as [|c s IH]; rewrite search_unfold, after_label_unfold;
    pose proof (match_at_section label next) as Hm.
  - specialize (Hm []). destruct (match_at _ []); simpl in *;
      by destruct (startswith label []).
  - specialize (Hm (c :: s)). destruct (match_at _ (c :: s)); simpl in *;
      by destruct (startswith label (c :: s)).
Qed.

Lemma match_at_questions (s : str) :
  option_map grp1 (match_at Reasoner.questions_re s)
  = if startswith $"QUESTIONS:" s
    then Some (lstrip (drop (length $"QUESTIONS:") s))
    else None.
Proof.
  unfold match_at, Reasoner.questions_re.
  rewrite rmatch_seq, rmatch_lit. destruct (startswith _ s); [|done].
  rewrite rmatch_seq, rmatch_spaces.
  - by rewrite rmatch_to_end.
  - intros t. by rewrite rmatch_to_end.
Qed.

Lemma search_questions (s : str) :
  option_map grp1 (search Reasoner.questions_re s)
  = option_map lstrip (after_label $"QUESTIONS:" s).
Proof.
  induction s as [|c s IH]; rewrite search_unfold, after_label_unfold;
    pose proof match_at_questions as Hm.
  - specialize (Hm []). destruct (match_at _ []); cbn [option_map] in *;
      by destruct (startswith _ []).
  - specialize (Hm (c :: s)). destruct (match_at _ (c :: s));
      cbn [option_map] in *; by destruct (startswith _ (c :: s)).
Qed.

Lemma before_labels_nil (s : str) : before_labels [] s = s.
Proof. induction s as [|c s IH]; [done|]. cbn. by rewrite IH. Qed.

(** Whitespace before the text is kept by [before_labels] when the label
    does not start with whitespace. *)
Lemma before_labels_spaces (n0 : ascii) (next ws u : str) :
  is_space n0 = false ->
  Forall (fun c => is_space c = true) ws ->
  before_labels [n0 :: next] (ws ++ u) = ws ++ before_labels [n0 :: next] u.
Proof.
  intros Hn. induction 1 as [|c ws Hc _ IH]; [done|].
  cbn [app]. rewrite before_labels_unfold. cbn [existsb].
  rewrite startswith_cons.
  assert (eqc n0 c = false) as ->.
  { apply not_true_iff_false. intros ->%eqc_true. congruence. }
  cbn [andb orb]. by rewrite IH.
Qed.

Lemma strip_before_lstrip (n0 : ascii) (next t : str) :
  is_space n0 = false ->
  strip (before_labels [n0 :: next] (lstrip t))
  = strip (before_labels [n0 :: next] t).
Proof.
  intros Hn. destruct (lstrip_split t) as (ws & Ht & Hws).
  rewrite Ht at 2. rewrite before_labels_spaces by done.
  by rewrite strip_app_spaces.
Qed.

Lemma field_section (label next default decision : str) (n0 : ascii) :
  is_space n0 = false ->
  Reasoner.field (search (Reasoner.section_re label (n0 :: next)) decision)
    default
  = labelled_section label [n0 :: next] default decision.
Proof.
  intros Hn. pose proof (search_section label (n0 :: next) decision) as H.
  unfold Reasoner.field, labelled_section.
  destruct (search _ decision), (after_label label decision);
    cbn [option_map] in H; try done.
  injection H as ->. by apply strip_before_lstrip.
Qed.

Lemma field_questions (default decision : str) :
  Reasoner.field (search Reasoner.questions_re decision) default
  = labelled_section $"QUESTIONS:" [] default decision.
Proof.
  pose proof (search_questions decision) as H.
  unfold Reasoner.field, labelled_section.
  destruct (search _ decision), (after_label _ decision);
    cbn [option_map] in H; try done.
  injection H as ->. by rewrite before_labels_nil, strip_lstrip.
Qed.

Lemma contains_drop (sub s : str) (n : nat) :
  contains sub s = false -> contains sub (drop n s) = false.
Proof.
  revert s. induction n as [|n IH]; intros s H; [by rewrite drop_0|].
  destruct s as [|c s]; [done|]. cbn [drop]. apply IH.
  rewrite contains_unfold in H. by apply orb_false_iff in H as [_ H].
Qed.

Lemma after_label_absent (label s : str) :
  contains label s = false -> after_label label s = None.
Proof.
  induction s as [|c s IH]; intros H; rewrite contains_unfold in H;
    apply orb_false_iff in H as [H1 H2]; rewrite after_label_unfold, H1;
    [done | by apply IH].
Qed.

Lemma after_label_keeps_absent (sub label s t : str) :
  contains sub s = false -> after_label label s = Some t ->
  contains sub t = false.
Proof.
  induction s as [|c s IH]; intros H; rewrite after_label_unfold;
    destruct (startswith label _).
  - intros [= <-]. by apply contains_drop.
  - done.
  - intros [= <-]. by apply contains_drop.
  - rewrite contains_unfold in H. apply orb_false_iff in H as [_ H]. by apply IH.
Qed.

Lemma before_labels_absent (next s : str) :
  contains next s = false -> before_labels [next] s = s.
Proof.
  induction s as [|c s IH]; intros H; rewrite contains_unfold in H;
    apply orb_false_iff in H as [H1 H2]; rewrite before_labels_unfold;
    cbn [existsb]; rewrite H1; cbn [orb]; [done | by rewrite IH].
Qed.

(** A section bounded by a label that the text does not have runs to the
    end of the text. *)
Lemma labelled_section_absent (label next default decision : str) :
  contains next decision = false ->
  labelled_section label [next] default decision
  = labelled_section label [] default decision.
Proof.
  intros H. unfold labelled_section.
  destruct (after_label label decision) as [t|] eqn:Ht; [|done].
  rewrite before_labels_nil, before_labels_absent; [done|].
  by apply (after_label_keeps_absent _ label decision).
Qed.

End ReportFacts.

(** C4, as the code has it.  Each field is bounded by the one label that
    follows its own in the fixed order, and by nothing else: the
    assessment by RISK_LEVEL:, the risk level by RECOMMENDATIONS:, the
    recommendations by QUESTIONS:, the questions by the end of the text.
    So in a text without RISK_LEVEL: the risk level is "Unknown", the
    recommendations and the questions are their own labelled sections, and
    the assessment is everything after ASSESSMENT: to the end of the text,
    the later sections included. *)
Theorem C4_missing_risk_level (decision : str) :
  let r := Reasoner.parse_report decision in
  (Reasoner.assessment r
   = labelled_section $"ASSESSMENT:" [$"RISK_LEVEL:"]
       $"No assessment provided" decision
   /\ Reasoner.risk_level r
      = labelled_section $"RISK_LEVEL:" [$"RECOMMENDATIONS:"]
          $"Unknown" decision
   /\ Reasoner.recommendations r
      = labelled_section $"RECOMMENDATIONS:" [$"QUESTIONS:"]
          $"No recommendations" decision
   /\ Reasoner.questions r
      = labelled_section $"QUESTIONS:" [] $"null" decision)
  /\ (contains $"RISK_LEVEL:" decision = false ->
      Reasoner.risk_level r = $"Unknown"
      /\ Reasoner.assessment r
         = labelled_section $"ASSESSMENT:" [] $"No assessment provided"
             decision).
Proof.
  intros r. subst r. unfold Reasoner.parse_report.
  cbn [Reasoner.assessment Reasoner.recommendations Reasoner.questions
       Reasoner.risk_level].
  assert (Reasoner.field
            (search (Reasoner.section_re $"ASSESSMENT:" $"RISK_LEVEL:") decision)
            $"No assessment provided"
          = labelled_section $"ASSESSMENT:" [$"RISK_LEVEL:"]
              $"No assessment provided" decision) as Ha
    by by apply (field_section _ _ _ _ "R").
  split; [split; [|split; [|split]]|].
  - exact Ha.
  - by apply (field_section _ _ _ _ "R").
  - by apply (field_section _ _ _ _ "Q").
  - apply field_questions.
  - intros Hrisk. split.
    + pose proof (search_section $"RISK_LEVEL:" $"RECOMMENDATIONS:" decision) as H.
      rewrite after_label_absent in H by done.
      unfold Reasoner.field.
      destruct (search (Reasoner.section_re $"RISK_LEVEL:" _) decision);
        [by simpl in H | done].
    + rewrite Ha. by apply labelled_section_absent.
Qed.

Lemma C4_witness :
  Reasoner.risk_level (Reasoner.parse_report Demo.reply_without_risk) = $"Unknown"
  /\ Reasoner.assessment (Reasoner.parse_report Demo.reply_without_risk)
     = $"ok
RECOMMENDATIONS: patch X
QUESTIONS: null"
  /\ Reasoner.risk_level (Reasoner.parse_report Demo.reply) = $"Low".
Proof.
  assert (contains $"RISK_LEVEL:" Demo.reply_without_risk = false) as Hno
    by (vm_compute; reflexivity).
  destruct (proj2 (C4_missing_risk_level Demo.reply_without_risk) Hno)
    as [Hrisk Hassessment].
  split; [exact Hrisk|]. split.
  - rewrite Hassessment. vm_compute. reflexivity.
  - destruct (proj1 (C4_missing_risk_level Demo.reply)) as (_ & Hlow & _).
    rewrite Hlow. vm_compute. reflexivity.
Defined.

(** C4 as stated fails: without RISK_LEVEL: the assessment is not bounded
    by the next label that the text has. *)
Lemma C4_counterexample :
  ~ (forall decision : str,
       contains $"ASSESSMENT:" decision = true ->
       contains $"RECOMMENDATIONS:" decision = true ->
       contains $"QUESTIONS:" decision = true ->
       contains $"RISK_LEVEL:" decision = false ->
       let r := Reasoner.parse_report decision in
       Reasoner.risk_level r = $"Unknown"
       /\ Reasoner.assessment r
          = labelled_section $"ASSESSMENT:"
              [$"RISK_LEVEL:"; $"RECOMMENDATIONS:"; $"QUESTIONS:"]
              $"No assessment provided" decision
       /\ Reasoner.recommendations r
          = labelled_section $"RECOMMENDATIONS:" [$"QUESTIONS:"]
              $"No recommendations" decision
       /\ Reasoner.questions r
          = labelled_section $"QUESTIONS:" [] $"null" decision).
Proof.
  intros H.
  destruct (H Demo.reply_without_risk) as (_ & Ha & _); try (vm_compute; reflexivity).
  vm_compute in Ha. discriminate Ha.
Qed.

(** * Deduplication of the recommendations *)

Section Deduplication.

(** The set loop keeps the lines that [first_occurrences] keeps, when
    the set holds the non-empty stripped forms of the earlier lines. *)
Lemma dedup_loop_first_occurrences (lines : list str) :
  forall (seen : gset str) (earlier : list str),
    (forall x, x ∈ seen <-> x <> [] /\ x ∈ map strip earlier) ->
    Reasoner.dedup_loop seen lines = first_occurrences earlier lines.
Proof.
  induction lines as [|line rest IH]; intros seen earlier Hseen; [done|].
  cbn [Reasoner.dedup_loop first_occurrences].
  destruct (strip line) as [|c clean] eqn:Hclean.
  - cbn [is_nil negb andb]. apply IH. intros x. rewrite Hseen.
    rewrite map_app, elem_of_app. cbn [map]. rewrite Hclean.
    rewrite list_elem_of_singleton. naive_solver.
  - cbn [is_nil negb andb].
    destruct (Reasoner.in_list (c :: clean) (map strip earlier)) eqn:Hin.
    + apply in_list_true in Hin.
      rewrite bool_decide_eq_false_2 by (intros Hn; apply Hn, Hseen; done).
      cbn [negb]. apply IH. intros x. rewrite Hseen.
      rewrite map_app, elem_of_app. cbn [map]. rewrite Hclean.
      rewrite list_elem_of_singleton. naive_solver.
    + assert (c :: clean ∉ map strip earlier) as Hnot.
      { intros H%in_list_true. congruence. }
      rewrite bool_decide_eq_true_2 by (rewrite Hseen; naive_solver).
      cbn [negb]. f_equal. apply IH. intros x.
      rewrite elem_of_union, elem_of_singleton, Hseen.
      rewrite map_app, elem_of_app. cbn [map]. rewrite Hclean.
      rewrite list_elem_of_singleton. naive_solver.
Qed.

(** The kept lines are lines of the text, unchanged and in their order. *)
Lemma first_occurrences_sublist (lines earlier : list str) :
  sublist (first_occurrences earlier lines) lines.
Proof.
  revert earlier. induction lines as [|line rest IH]; intros earlier; [done|].
  cbn [first_occurrences]. destruct (_ && _).
  - by apply sublist_skip.
  - by apply sublist_cons.
Qed.

Lemma first_occurrences_fresh (lines earlier : list str) (x : str) :
  x ∈ first_occurrences earlier lines ->
  strip x <> [] /\ strip x ∉ map strip earlier.
Proof.
  revert earlier. induction lines as [|line rest IH]; intros earlier.
  - intros H. by apply elem_of_nil in H.
  - cbn [first_occurrences].
    destruct (negb (is_nil (strip line))) eqn:Hnb;
      destruct (negb (Reasoner.in_list (strip line) (map strip earlier))) eqn:Hni;
      cbn [andb]; intros H.
    + apply elem_of_cons in H as [->|H].
      * split.
        -- by destruct (strip line).
        -- intros Hin%in_list_true. by rewrite Hin in Hni.
      * apply IH in H as [H1 H2]. split; [done|].
        intros Hin. apply H2. rewrite map_app. apply elem_of_app. by left.
    + apply IH in H as [H1 H2]. split; [done|].
      intros Hin. apply H2. rewrite map_app. apply elem_of_app. by left.
    + apply IH in H as [H1 H2]. split; [done|].
      intros Hin. apply H2. rewrite map_app. apply elem_of_app. by left.
    + apply IH in H as [H1 H2]. split; [done|].
      intros Hin. apply H2. rewrite map_app. apply elem_of_app. by left.
Qed.

(** No two kept lines have the same stripped form. *)
Lemma first_occurrences_nodup (lines earlier : list str) :
  NoDup (map strip (first_occurrences earlier lines)).
Proof.
  revert earlier. induction lines as [|line rest IH]; intros earlier.
  - constructor.
  - cbn [first_occurrences]. destruct (_ && _); [|apply IH].
    cbn [map]. constructor; [|apply IH].
    intros Hin. apply list_elem_of_fmap in Hin as (y & Hy & Hin).
    apply first_occurrences_fresh in Hin as [_ Hin]. apply Hin.
    rewrite map_app. apply elem_of_app. right. cbn [map]. rewrite <- Hy.
    by left.
Qed.

(** Every line that is not blank is kept or has the stripped form of an
    earlier line. *)
Lemma first_occurrences_cover (lines earlier : list str) (line : str) :
  line ∈ lines -> strip line <> [] ->
  strip line ∈ map strip earlier
  \/ strip line ∈ map strip (first_occurrences earlier lines).
Proof.
  revert earlier. induction lines as [|l rest IH]; intros earlier Hin Hnb.
  - by apply elem_of_nil in Hin.
  - cbn [first_occurrences].
    apply elem_of_cons in Hin as [->|Hin].
    + destruct (strip l) as [|c cl] eqn:Hl; [done|]. cbn [is_nil negb andb].
      destruct (Reasoner.in_list (c :: cl) (map strip earlier)) eqn:Hi.
      * left. by apply in_list_true.
      * right. cbn [negb map]. rewrite Hl. by left.
    + destruct (IH (earlier ++ [l]) Hin Hnb) as [H|H].
      * rewrite map_app in H. apply elem_of_app in H as [H|H]; [by left|].
        cbn [map] in H. apply list_elem_of_singleton in H.
        destruct (negb (is_nil (strip l))
                  && negb (Reasoner.in_list (strip l) (map strip earlier)))
          eqn:Hk.
        -- right. cbn [map]. rewrite H. by left.
        -- apply andb_false_iff in Hk as [Hk|Hk].
           ++ rewrite <- H in Hk. by destruct (strip line).
           ++ left. apply negb_false_iff in Hk. apply in_list_true in Hk.
              by rewrite H.
      * destruct (_ && _); [|by right]. right. cbn [map]. by right.
Qed.

End Deduplication.

(** C8, as the code has it.  [deduplicate_recommendations] compares the
    lines by their stripped forms: it drops the lines that are empty once
    stripped and every line whose stripped form is that of an earlier
    line; the lines it keeps are lines of the text, unchanged and in their
    order, no two with the same stripped form, and every non-blank line
    has the stripped form of a kept one.  For "a\nb\na\n\nb" the result is
    "a\nb". *)
Theorem C8_deduplication_by_stripped_line (text : str) :
  let lines := split_on "010"%char text in
  let kept := first_occurrences [] lines in
  Reasoner.deduplicate_recommendations text = join Reasoner.nl kept
  /\ sublist kept lines
  /\ NoDup (map strip kept)
  /\ (forall line, line ∈ kept -> strip line <> [])
  /\ (forall line, line ∈ lines -> strip line <> [] ->
        strip line ∈ map strip kept)
  /\ Reasoner.deduplicate_recommendations
       ($"a" ++ Reasoner.nl ++ $"b" ++ Reasoner.nl ++ $"a" ++ Reasoner.nl
        ++ Reasoner.nl ++ $"b")
     = $"a" ++ Reasoner.nl ++ $"b".
Proof.
  intros lines kept. split; [|split; [|split; [|split; [|split]]]].
  - unfold Reasoner.deduplicate_recommendations.
    destruct text as [|c text]; [done|]. cbn [is_nil]. f_equal.
    apply dedup_loop_first_occurrences. intros x.
    rewrite elem_of_empty. cbn [map]. rewrite elem_of_nil. naive_solver.
  - apply first_occurrences_sublist.
  - apply first_occurrences_nodup.
  - intros line Hin. by apply first_occurrences_fresh in Hin as [? _].
  - intros line Hin Hnb.
    destruct (first_occurrences_cover lines [] line Hin Hnb) as [H|H]; [|done].
    by apply elem_of_nil in H.
  - vm_compute. reflexivity.
Qed.

Lemma C8_witness :
  let text := $" x" ++ Reasoner.nl ++ $"x " ++ Reasoner.nl ++ $"y" in
  Reasoner.deduplicate_recommendations text = $" x" ++ Reasoner.nl ++ $"y"
  /\ strip $"x "
     ∈ map strip (first_occurrences [] (split_on "010"%char text)).
Proof.
  intros text.
  pose proof (C8_deduplication_by_stripped_line text)
    as (Hkept & _ & _ & _ & Hcover & _).
  split.
  - rewrite Hkept. vm_compute. reflexivity.
  - apply Hcover; [|discriminate].
    apply list_elem_of_In. vm_compute. right. left. reflexivity.
Defined.

(** C8 as stated fails: " a" is not equal to the earlier line "a", and
    the code drops it. *)
Lemma C8_counterexample :
  ~ (forall text : str,
       Reasoner.deduplicate_recommendations text = deduplicate_exact text).
Proof.
  intros H. specialize (H ($"a" ++ Reasoner.nl ++ $" a")).
  vm_compute in H. discriminate H.
Qed.

(** * The rewriting of a requirements manifest *)

Section RequirementsFix.

Lemma split_on_unfold (sep : ascii) (s : str) :
  split_on sep s
  = match s with
    | [] => [[]]
    | c :: s' =>
        if eqc c sep then [] :: split_on sep s'
        else match split_on sep s' with
             | l :: ls => (c :: l) :: ls
             | [] => [[c]]
             end
    end.
Proof. by destruct s. Qed.

Lemma split_on_not_nil (sep : ascii) (s : str) : split_on sep s <> [].
Proof.
  induction s as [|c s IH]; [done|]. rewrite split_on_unfold.
  destruct (eqc c sep); [done|]. by destruct (split_on sep s).
Qed.

(** The pieces of a split do not have the separator. *)
Lemma split_on_no_sep (sep : ascii) (s l : str) :
  l ∈ split_on sep s -> sep ∉ l.
Proof.
  revert l. induction s as [|c s IH]; intros l; rewrite split_on_unfold.
  - intros ->%list_elem_of_singleton. by intros H%elem_of_nil.
  - destruct (eqc c sep) eqn:Hc.
    + intros [->|H]%elem_of_cons; [by intros H%elem_of_nil | by apply IH].
    + destruct (split_on sep s) as [|l0 ls] eqn:Hs.
      * by destruct (split_on_not_nil sep s).
      * intros [->|H]%elem_of_cons.
        -- intros [->|H]%elem_of_cons.
           ++ by rewrite eqc_refl in Hc.
           ++ revert H. apply IH. by left.
        -- apply IH. by right.
Qed.

Lemma join_cons (sep p : str) (ps : list str) :
  ps <> [] -> join sep (p :: ps) = p ++ sep ++ join sep ps.
Proof. by destruct ps. Qed.

(** Splitting at the separator what was joined with it gives the pieces
    back, when no piece has the separator. *)
Lemma split_on_join (sep : ascii) (ls : list str) :
  ls <> [] -> (forall l, l ∈ ls -> sep ∉ l) ->
  split_on sep (join [sep] ls) = ls.
Proof.
  induction ls as [|l ls IH]; [done|]. intros _ Hsep.
  assert (sep ∉ l) as Hl by (apply Hsep; by left).
  destruct ls as [|l' ls].
  - cbn [join]. clear IH Hsep. induction l as [|c l IHl]; [done|].
    rewrite split_on_unfold.
    assert (eqc c sep = false) as ->.
    { apply not_true_iff_false. intros ->%eqc_true. apply Hl. by left. }
    rewrite IHl; [done|]. intros H. apply Hl. by right.
  - rewrite join_cons by done.
    assert (split_on sep (join [sep] (l' :: ls)) = l' :: ls) as Hrest.
    { apply IH; [done|]. intros x Hx. apply Hsep. by right. }
    clear IH Hsep. cbn [app]. induction l as [|c l IHl].
    + cbn [app]. rewrite split_on_unfold, eqc_refl. by rewrite Hrest.
    + cbn [app]. rewrite split_on_unfold.
      assert (eqc c sep = false) as ->.
      { apply not_true_iff_false. intros ->%eqc_true. apply Hl. by left. }
      rewrite IHl; [done|]. intros H. apply Hl. by right.
Qed.

Lemma lstrip_elem (s : str) (x : ascii) : x ∈ lstrip s -> x ∈ s.
Proof.
  induction s as [|c s IH]; [done|]. cbn [lstrip].
  destruct (is_space c); [|done]. intros H. right. by apply IH.
Qed.

Lemma strip_elem (s : str) (x : ascii) : x ∈ strip s -> x ∈ s.
Proof.
  unfold strip, rstrip. intros H. apply lstrip_elem.
  apply list_elem_of_In in H. apply <- in_rev in H.
  apply list_elem_of_In, lstrip_elem, list_elem_of_In in H.
  apply <- in_rev in H. by apply list_elem_of_In.
Qed.

(** A pin of a known package is rewritten to that package's entry. *)
Lemma updated_line_pin (pkg new_version line : str) :
  (pkg, new_version) ∈ ProjectManager.version_updates ->
  startswith (pkg ++ $"==") line = true ->
  ProjectManager.updated_line ProjectManager.version_updates line
  = Some (pkg ++ new_version)
  /\ is_nil line || startswith $"#" line = false.
Proof.
  intros Hin [r ->]%startswith_true. unfold ProjectManager.version_updates in *.
  repeat (apply elem_of_cons in Hin as [[= -> ->]|Hin]);
    [..|by apply elem_of_nil in Hin]; split; reflexivity.
Qed.

Lemma updated_line_none (line : str) :
  (forall pkg new_version,
     (pkg, new_version) ∈ ProjectManager.version_updates ->
     startswith (pkg ++ $"==") line = false) ->
  ProjectManager.updated_line ProjectManager.version_updates line = None.
Proof.
  generalize ProjectManager.version_updates.
  induction l as [|[pkg new_version] l IH]; intros H; [done|].
  cbn [ProjectManager.updated_line].
  rewrite (H pkg new_version (list_elem_of_here _ _)).
  apply IH. intros p n Hin. apply (H p n). by right.
Qed.

Lemma updated_line_elem (line l : str) :
  ProjectManager.updated_line ProjectManager.version_updates line = Some l ->
  "010"%char ∉ l.
Proof.
  unfold ProjectManager.version_updates.
  cbn [ProjectManager.updated_line].
  repeat match goal with
         | |- context [startswith ?p line] => destruct (startswith p line)
         end;
    intros [= <-]; intros H; cbn in H;
    repeat (apply elem_of_cons in H as [H|H]; [discriminate H|]);
    by apply elem_of_nil in H.
Qed.

Lemma fix_line_no_newline (line : str) :
  "010"%char ∉ line -> "010"%char ∉ ProjectManager.fix_line line.
Proof.
  intros Hl. unfold ProjectManager.fix_line.
  assert ("010"%char ∉ strip line) as Hs by (intros H; by apply Hl, strip_elem).
  destruct (_ || _); [done|].
  destruct (ProjectManager.updated_line _ _) eqn:Hu; [|done].
  by apply updated_line_elem in Hu.
Qed.

End RequirementsFix.

(** C9, as the code has it.  An empty manifest gives a fixed comment
    line.  For any other text the result has one line for each line of
    the text, made from that line alone after stripping its leading and
    trailing whitespace: a stripped line that is empty or a comment is
    emitted as stripped; one that starts with [pkg==] for a package of the
    update table becomes the package and its new version, whatever follows
    the pin; every other line is emitted in its stripped form, so unchanged
    exactly when it had no surrounding whitespace. *)
Theorem C9_requirements_fix_by_stripped_line (text : str) :
  ProjectManager.generate_requirements_fix []
  = $"# No requirements.txt content available for fixing"
  /\ (text <> [] ->
      split_on "010"%char (ProjectManager.generate_requirements_fix text)
      = map ProjectManager.fix_line (split_on "010"%char text))
  /\ (forall line,
        is_nil (strip line) || startswith $"#" (strip line) = true ->
        ProjectManager.fix_line line = strip line)
  /\ (forall line pkg new_version,
        (pkg, new_version) ∈ ProjectManager.version_updates ->
        startswith (pkg ++ $"==") (strip line) = true ->
        ProjectManager.fix_line line = pkg ++ new_version)
  /\ (forall line,
        (forall pkg new_version,
           (pkg, new_version) ∈ ProjectManager.version_updates ->
           startswith (pkg ++ $"==") (strip line) = false) ->
        ProjectManager.fix_line line = strip line).
Proof.
  split; [done|]. split; [|split; [|split]].
  - intros Hne. unfold ProjectManager.generate_requirements_fix.
    destruct text as [|c text]; [done|]. cbn [is_nil].
    apply split_on_join.
    + intros Hnil. apply (f_equal length) in Hnil.
      rewrite length_map in Hnil.
      by destruct (split_on "010"%char (c :: text)) eqn:Hs;
        [destruct (split_on_not_nil "010"%char (c :: text))|].
    + intros l (y & -> & Hy)%list_elem_of_fmap.
      by apply fix_line_no_newline, (split_on_no_sep _ (c :: text)).
  - intros line Hc. unfold ProjectManager.fix_line. by rewrite Hc.
  - intros line pkg new_version Hin Hpin. unfold ProjectManager.fix_line.
    destruct (updated_line_pin pkg new_version (strip line) Hin Hpin)
      as [-> ->]. done.
  - intros line Hnone. unfold ProjectManager.fix_line.
    rewrite updated_line_none by done. by destruct (_ || _).
Qed.

Lemma C9_witness :
  split_on "010"%char (ProjectManager.generate_requirements_fix Demo.manifest)
  = [$"# pinned"; $"requests>=2.31.0"; $"pytest"]
  /\ ProjectManager.fix_line $"  requests==2.25.1  # old" = $"requests>=2.31.0"
  /\ ProjectManager.fix_line $"pytest  " = $"pytest"
  /\ ProjectManager.fix_line $"  # note" = $"# note".
Proof.
  pose proof (fun text => C9_requirements_fix_by_stripped_line text) as T.
  split; [|split; [|split]].
  - rewrite (proj1 (proj2 (T Demo.manifest))) by discriminate.
    vm_compute. reflexivity.
  - apply (proj1 (proj2 (proj2 (proj2 (T []))))
             $"  requests==2.25.1  # old" $"requests" $">=2.31.0").
    + by left.
    + vm_compute. reflexivity.
  - rewrite (proj2 (proj2 (proj2 (proj2 (T []))))).
    + vm_compute. reflexivity.
    + intros pkg new_version Hin.
      unfold ProjectManager.version_updates in Hin.
      repeat (apply elem_of_cons in Hin as [[= -> ->]|Hin]);
        [vm_compute; reflexivity..|by apply elem_of_nil in Hin].
  - rewrite (proj1 (proj2 (proj2 (T [])))); vm_compute; reflexivity.
Defined.

(** C9 as stated fails: the line "pytest  " is neither a comment, nor
    blank, nor a pin of a known package, and it is not left as it is. *)
Lemma C9_counterexample :
  ~ (forall text : str,
       ProjectManager.generate_requirements_fix text
       = requirements_fix_verbatim text).
Proof.
  intros H. specialize (H $"pytest  "). vm_compute in H. discriminate H.
Qed.

(** * The fallback chains *)

Section FallbackChain.

Context {W : Type} {sv : Services W}.

Lemma accepted_dict (d : list (str * value)) :
  ProjectManager.accepted (VDict d) = Ok (acceptable d).
Proof. by destruct d. Qed.

Lemma try_strategies_cons (strategy : M W value) (rest : list (M W value))
    (w w1 : W) (d : list (str * value)) :
  strategy w = (Ok (VDict d), w1) ->
  ProjectManager.try_strategies (strategy :: rest) w
  = if acceptable d then (Ok (Some (VDict d)), w1)
    else ProjectManager.try_strategies rest w1.
Proof.
  intros Hs. cbn [ProjectManager.try_strategies]. unfold bind at 1.
  rewrite Hs. unfold bind at 1. rewrite accepted_dict.
  by destruct (acceptable d).
Qed.

(** When every strategy is refused, all of them are run and the loop ends
    without a result. *)
Lemma try_strategies_refused (strategies : list (M W value)) (w w' : W) :
  refused_run strategies w w' ->
  ProjectManager.try_strategies strategies w = (Ok None, w').
Proof.
  induction 1 as [w|strategy rest w d w1 w2 Hs Hd _ IH]; [done|].
  rewrite (try_strategies_cons _ _ _ _ _ Hs).
  apply negb_true_iff in Hd. by rewrite Hd.
Qed.

(** The first strategy whose result is acceptable ends the loop: what
    comes after it is not run. *)
Lemma try_strategies_first (pre post : list (M W value))
    (strategy : M W value) (w w1 w2 : W) (d : list (str * value)) :
  refused_run pre w w1 ->
  strategy w1 = (Ok (VDict d), w2) ->
  acceptable d = true ->
  ProjectManager.try_strategies (pre ++ strategy :: post) w
  = (Ok (Some (VDict d)), w2).
Proof.
  intros Hpre Hs Hd.
  induction Hpre as [w|s0 rest w d0 w0 w1 Hs0 Hd0 _ IH].
  - cbn [app]. rewrite (try_strategies_cons _ _ _ _ _ Hs). by rewrite Hd.
  - cbn [app]. rewrite (try_strategies_cons _ _ _ _ _ Hs0).
    apply negb_true_iff in Hd0. rewrite Hd0. by apply IH.
Qed.

Lemma semgrep_fallback_failure (self : ProjectManager.t) (w w' : W) :
  refused_run
    [ProjectManager._run_semgrep_basic self;
     ProjectManager._run_semgrep_security self;
     ProjectManager._run_semgrep_auto self] w w' ->
  ProjectManager._run_semgrep_with_fallback self w
  = (Ok ProjectManager.semgrep_failure, w').
Proof.
  intros H. unfold ProjectManager._run_semgrep_with_fallback, bind.
  by rewrite (try_strategies_refused _ _ _ H).
Qed.

Lemma osv_fallback_failure (self : ProjectManager.t) (w w' : W) :
  refused_run
    [ProjectManager._run_osv_audit_standard self;
     ProjectManager._run_osv_audit_recursive self;
     ProjectManager._run_osv_audit_lockfile self] w w' ->
  ProjectManager._run_osv_audit_with_fallback self w
  = (Ok ProjectManager.osv_failure, w').
Proof.
  intros H. unfold ProjectManager._run_osv_audit_with_fallback, bind.
  by rewrite (try_strategies_refused _ _ _ H).
Qed.

(** The scan bundle when the pattern scan fails: its slot holds the
    failure, every other slot what its probe returned. *)
Lemma run_scan_semgrep_failure (self : ProjectManager.t)
    (w w1 w2 w3 w4 w5 : W) (languages structure : value)
    (file_contents : list (str * str)) (issues : list str) :
  detect_languages (ProjectManager.base_path self) w = (languages, w1) ->
  get_file_structure (ProjectManager.base_path self) w1 = (structure, w2) ->
  analyze_file_contents (ProjectManager.base_path self) w2 = (file_contents, w3) ->
  refused_run
    [ProjectManager._run_semgrep_basic self;
     ProjectManager._run_semgrep_security self;
     ProjectManager._run_semgrep_auto self] w3 w4 ->
  _identify_potential_issues (ProjectManager.base_path self) w4 = (issues, w5) ->
  ProjectManager.run_scan self w
  = (Ok [($"languages", languages);
         ($"structure", structure);
         ($"file_contents", ProjectManager.contents_value file_contents);
         ($"semgrep_scan", ProjectManager.semgrep_failure);
         ($"potential_issues", VList (map VStr issues));
         ($"detected_frameworks",
          VList (map VStr (ProjectManager.detect_frameworks file_contents)))],
     w5).
Proof.
  intros Hl Hs Hf Hsem Hi. unfold ProjectManager.run_scan.
  unfold bind at 1. unfold call at 1. rewrite Hl.
  unfold bind at 1. unfold call at 1. rewrite Hs.
  unfold bind at 1. unfold call at 1. rewrite Hf.
  unfold bind at 1. rewrite (semgrep_fallback_failure _ _ _ Hsem).
  unfold bind at 1. unfold call at 1. rewrite Hi.
  reflexivity.
Qed.

End FallbackChain.

(** C5, as the code has it.  The chain returns the result of the first
    strategy whose result is a non-empty dictionary with no truthy [error]
    entry (the key missing, or its value empty), and the strategies after
    that one are not run.  When every strategy is refused, all are run and
    the result is the failure dictionary, which has an [error] and a
    [suggested_fix] entry; the scan bundle then holds that failure in its
    pattern-scan slot and, in every other slot, what the probe of that
    slot returned. *)
Theorem C5_fallback_chain {W : Type} {sv : Services W} :
  (forall (pre post : list (M W value)) (strategy : M W value)
          (w w1 w2 : W) (d : list (str * value)),
     refused_run pre w w1 ->
     strategy w1 = (Ok (VDict d), w2) ->
     acceptable d = true ->
     ProjectManager.try_strategies (pre ++ strategy :: post) w
     = (Ok (Some (VDict d)), w2))
  /\ (forall (self : ProjectManager.t) (pre post : list (M W value))
             (strategy : M W value) (w w1 w2 : W) (d : list (str * value)),
        ([ProjectManager._run_semgrep_basic self;
          ProjectManager._run_semgrep_security self;
          ProjectManager._run_semgrep_auto self] = pre ++ strategy :: post
         -> refused_run pre w w1 ->
         strategy w1 = (Ok (VDict d), w2) ->
         acceptable d = true ->
         ProjectManager._run_semgrep_with_fallback self w = (Ok (VDict d), w2))
        /\
        ([ProjectManager._run_osv_audit_standard self;
          ProjectManager._run_osv_audit_recursive self;
          ProjectManager._run_osv_audit_lockfile self] = pre ++ strategy :: post
         -> refused_run pre w w1 ->
         strategy w1 = (Ok (VDict d), w2) ->
         acceptable d = true ->
         ProjectManager._run_osv_audit_with_fallback self w
         = (Ok (VDict d), w2)))
  /\ (forall (self : ProjectManager.t) (w w' : W),
        (refused_run
           [ProjectManager._run_semgrep_basic self;
            ProjectManager._run_semgrep_security self;
            ProjectManager._run_semgrep_auto self] w w' ->
         ProjectManager._run_semgrep_with_fallback self w
         = (Ok ProjectManager.semgrep_failure, w'))
        /\
        (refused_run
           [ProjectManager._run_osv_audit_standard self;
            ProjectManager._run_osv_audit_recursive self;
            ProjectManager._run_osv_audit_lockfile self] w w' ->
         ProjectManager._run_osv_audit_with_fallback self w
         = (Ok ProjectManager.osv_failure, w')))
  /\ (value_has_key ProjectManager.semgrep_failure $"error" = true
      /\ value_has_key ProjectManager.semgrep_failure $"suggested_fix" = true
      /\ value_has_key ProjectManager.osv_failure $"error" = true
      /\ value_has_key ProjectManager.osv_failure $"suggested_fix" = true)
  /\ (forall (self : ProjectManager.t) (w w1 w2 w3 w4 w5 : W)
             (languages structure : value)
             (file_contents : list (str * str)) (issues : list str),
        detect_languages (ProjectManager.base_path self) w = (languages, w1) ->
        get_file_structure (ProjectManager.base_path self) w1 = (structure, w2) ->
        analyze_file_contents (ProjectManager.base_path self) w2
        = (file_contents, w3) ->
        refused_run
          [ProjectManager._run_semgrep_basic self;
           ProjectManager._run_semgrep_security self;
           ProjectManager._run_semgrep_auto self] w3 w4 ->
        _identify_potential_issues (ProjectManager.base_path self) w4
        = (issues, w5) ->
        ProjectManager.run_scan self w
        = (Ok [($"languages", languages);
               ($"structure", structure);
               ($"file_contents", ProjectManager.contents_value file_contents);
               ($"semgrep_scan", ProjectManager.semgrep_failure);
               ($"potential_issues", VList (map VStr issues));
               ($"detected_frameworks",
                VList (map VStr (ProjectManager.detect_frameworks file_contents)))],
           w5)).
Proof.
  split; [|split; [|split; [|split]]].
  - apply try_strategies_first.
  - intros self pre post strategy w w1 w2 d. split; intros Heq Hpre Hs Hd.
    + unfold ProjectManager._run_semgrep_with_fallback, bind.
      by rewrite Heq, (try_strategies_first _ _ _ _ _ _ _ Hpre Hs Hd).
    + unfold ProjectManager._run_osv_audit_with_fallback, bind.
      by rewrite Heq, (try_strategies_first _ _ _ _ _ _ _ Hpre Hs Hd).
  - intros self w w'. split.
    + apply semgrep_fallback_failure.
    + apply osv_fallback_failure.
  - done.
  - apply run_scan_semgrep_failure.
Qed.

Lemma demo_semgrep_refused (self : ProjectManager.t) (w : list str) :
  refused_run (W := list str)
    [ProjectManager._run_semgrep_basic (sv := Demo.sv) self;
     ProjectManager._run_semgrep_security (sv := Demo.sv) self;
     ProjectManager._run_semgrep_auto (sv := Demo.sv) self]
    w (((w ++ [ProjectManager.semgrep_path self])
          ++ [ProjectManager.semgrep_path self])
         ++ [ProjectManager.semgrep_path self]).
Proof.
  eapply chain_cons; [reflexivity | reflexivity |].
  eapply chain_cons; [reflexivity | reflexivity |].
  eapply chain_cons; [reflexivity | reflexivity |].
  apply chain_nil.
Qed.

Lemma C5_witness :
  ProjectManager.try_strategies Demo.strategies []
  = (Ok (Some (VDict [($"results", VList [])])), [$"basic"; $"security"])
  /\ exists bundle,
       fst (ProjectManager.run_scan (sv := Demo.sv)
              (ProjectManager.init (os := Demo.os) $"/proj") [])
       = Ok bundle
       /\ dict_get bundle $"semgrep_scan" = Some ProjectManager.semgrep_failure
       /\ dict_get bundle $"detected_frameworks" = Some (VList [VStr $"flask"]).
Proof.
  pose proof (C5_fallback_chain (sv := Demo.sv))
    as (Hfirst & _ & _ & _ & Hscan).
  split.
  - apply (Hfirst [Demo.logged $"basic" (VDict [($"error", VStr $"exit status 2")])]
             [Demo.logged $"auto" (VDict [($"results", VList [VInt 1])])]
             (Demo.logged $"security" (VDict [($"results", VList [])]))
             [] [$"basic"] [$"basic"; $"security"]).
    + eapply chain_cons; [reflexivity | reflexivity | apply chain_nil].
    + reflexivity.
    + reflexivity.
  - eexists. split.
    + erewrite Hscan; [reflexivity | reflexivity | reflexivity | reflexivity
                      | apply demo_semgrep_refused | reflexivity].
    + split; vm_compute; reflexivity.
Defined.

(** C5 as stated fails: a strategy that exits with a non-zero status and
    an empty error output gives a dictionary that has an [error] key, and
    the chain returns it. *)
Lemma C5_counterexample :
  ~ (forall (W : Type) (strategies : list (M W value)) (w w' : W),
       chain_run (fun d => has_key d $"error") strategies w w' ->
       ProjectManager.try_strategies strategies w = (Ok None, w')).
Proof.
  intros H.
  set (self := ProjectManager.init (os := Demo.os) $"/proj").
  specialize (H (list str)
                [ProjectManager._run_semgrep_basic (sv := Demo.quiet_sv) self;
                 ProjectManager._run_semgrep_security (sv := Demo.quiet_sv) self;
                 ProjectManager._run_semgrep_auto (sv := Demo.quiet_sv) self]
                []
                [ProjectManager.semgrep_path self;
                 ProjectManager.semgrep_path self;
                 ProjectManager.semgrep_path self]).
  assert (fst (ProjectManager.try_strategies
                 [ProjectManager._run_semgrep_basic (sv := Demo.quiet_sv) self;
                  ProjectManager._run_semgrep_security (sv := Demo.quiet_sv) self;
                  ProjectManager._run_semgrep_auto (sv := Demo.quiet_sv) self]
                 [])
          = Ok (Some (VDict [($"error", VStr []); ($"returncode", VInt 1)])))
    as Hrun by (vm_compute; reflexivity).
  rewrite H in Hrun; [discriminate Hrun|].
  eapply chain_cons; [reflexivity | reflexivity |].
  eapply chain_cons; [reflexivity | reflexivity |].
  eapply chain_cons; [reflexivity | reflexivity |].
  apply chain_nil.
Qed.

(** * Further properties of the controller *)

Section ControllerMore.

Context {os : OsPath} {W : Type} {sv : Services W}.
Variable max_str_digits : nat.


Lemma analyze_not_waiting (depth : nat) (user_input : str)
    (self : Reasoner.t) (w : W) :
  Reasoner.waiting_for_path_selection self = false ->
  Reasoner.analyze max_str_digits (S depth) user_input (self, w)
  = Reasoner.analyze_request user_input (self, w).
Proof. intros H. by rewrite analyze_unfold, H. Qed.


Lemma absolute_not_question (p : str) :
  absolute p = true -> startswith $"QUESTION:" p = false.
Proof.
  intros H. apply not_true_iff_false. intros [r ->]%startswith_true.
  discriminate H.
Qed.

(** X2.  A valid choice among the candidates does not end the
    disambiguation.  [analyze] stores the chosen path and analyzes the
    stored request again, the path is extracted from that request as
    before, and the same question with the same candidates comes back. *)
Theorem X2_selection_asks_again
    (depth : nat) (answer selected : str) (i : Z)
    (self : Reasoner.t) (w : W) :
  (forall p, absolute (path_abspath p) = true) ->
  Reasoner.waiting_for_path_selection self = true ->
  no_path_shape (Reasoner.original_request self) ->
  Reasoner.ambiguous_paths self
  = elements (Reasoner.scan_words ∅ (split (Reasoner.original_request self))) ->
  (2 <= length (Reasoner.ambiguous_paths self))%nat ->
  py_int max_str_digits answer = Some i ->
  1 <= i ->
  Reasoner.ambiguous_paths self !! Z.to_nat (i - 1) = Some selected ->
  exists self',
    Reasoner.analyze max_str_digits (S (S depth)) answer (self, w)
    = (Ok (Reasoner.ambiguity_question (Reasoner.ambiguous_paths self)),
       (self', w))
    /\ Reasoner.waiting_for_path_selection self' = true
    /\ Reasoner.ambiguous_paths self' = Reasoner.ambiguous_paths self
    /\ Reasoner.current_project_path self' = Some selected
    /\ Reasoner.original_request self' = Reasoner.original_request self.
Proof.
  intros Habs Hwait Hshape Hpaths Hlen Hparse Hi Hsel.
  assert (startswith $"QUESTION:" selected = false) as Hq.
  { apply absolute_not_question.
    assert (selected ∈ Reasoner.ambiguous_paths self) as Hin
      by (apply list_elem_of_lookup; eauto).
    rewrite Hpaths in Hin. apply elem_of_elements, scan_words_elem in Hin.
    destruct Hin as [Hin|[q ->]]; [by apply elem_of_empty in Hin | done]. }
  rewrite analyze_unfold, Hwait.
  unfold Reasoner.handle_path_selection at 1.
  rewrite py_int_strip, Hparse.
  apply lookup_lt_Some in Hsel as Hlt.
  assert ((0 <=? i - 1)
          && (i - 1 <? Z.of_nat (length (Reasoner.ambiguous_paths self)))
          = true) as ->.
  { apply andb_true_iff. split; [apply Z.leb_le | apply Z.ltb_lt]; lia. }
  rewrite Hsel, Hq, analyze_not_waiting by done.
  rewrite analyze_request_unfold. unfold Reasoner.extract_path.
  cbn [Reasoner.original_request Reasoner.clear_selection
       Reasoner.set_waiting_for_path_selection Reasoner.set_ambiguous_paths
       Reasoner.set_current_project_path Reasoner.set_original_request].
  unfold no_path_shape in Hshape. rewrite Hshape, <- Hpaths.
  destruct (Reasoner.ambiguous_paths self) as [|p1 [|p2 ps]] eqn:Hp;
    [simpl in Hlen; lia..|].
  cbn [fst snd]. unfold Reasoner.after_extraction. rewrite eqs_refl.
  eexists. split; [reflexivity|]. done.
Qed.

End ControllerMore.

Lemma X2_witness :
  let st :=
    snd (Reasoner.analyze (os := Demo.os) (sv := Demo.sv) 4300 2
           $"scan app lib" (Reasoner.init, [])) in
  exists self',
    Reasoner.analyze (os := Demo.os) (sv := Demo.sv) 4300 2 $"1" st
    = (Ok (Reasoner.ambiguity_question (Reasoner.ambiguous_paths (fst st))),
       (self', []))
    /\ Reasoner.waiting_for_path_selection self' = true.
Proof.
  intros st.
  destruct (X2_selection_asks_again (os := Demo.os) (sv := Demo.sv) 4300 0
              $"1" $"/home/u/app" 1 (fst st) [])
    as (self' & Hrun & Hwait & _);
    [apply demo_abspath_absolute | vm_compute; reflexivity..
    | vm_compute; lia | vm_compute; reflexivity | lia
    | vm_compute; reflexivity |].
  exists self'. split; [exact Hrun | exact Hwait].
Defined.

(** * Further properties of the text operations *)

Section TextMore.

Lemma field_absent (label next default decision : str) :
  contains label decision = false ->
  Reasoner.field (search (Reasoner.section_re label next) decision) default
  = default.
Proof.
  intros H. pose proof (search_section label next decision) as Hs.
  rewrite after_label_absent in Hs by done. unfold Reasoner.field.
  destruct (search _ decision); [by simpl in Hs | done].
Qed.

Lemma deduplicate_kept (text : str) :
  Reasoner.deduplicate_recommendations text
  = join Reasoner.nl (first_occurrences [] (split_on "010"%char text)).
Proof.
  unfold Reasoner.deduplicate_recommendations.
  destruct text as [|c text]; [done|]. cbn [is_nil]. f_equal.
  apply dedup_loop_first_occurrences. intros x.
  rewrite elem_of_empty. cbn [map]. rewrite elem_of_nil. naive_solver.
Qed.

(** Lines with distinct, non-empty stripped forms, none of them the
    stripped form of an earlier line, are all kept. *)
Lemma first_occurrences_fixed (lines : list str) :
  forall earlier : list str,
    NoDup (map strip lines) ->
    (forall line, line ∈ lines ->
       strip line <> [] /\ strip line ∉ map strip earlier) ->
    first_occurrences earlier lines = lines.
Proof.
  induction lines as [|line rest IH]; intros earlier Hnd Hfresh; [done|].
  cbn [first_occurrences]. cbn [map] in Hnd. apply NoDup_cons in Hnd as [Hn Hnd].
  destruct (Hfresh line) as [Hnb Hne]; [by left|].
  assert (negb (is_nil (strip line)) = true) as -> by by destruct (strip line).
  assert (Reasoner.in_list (strip line) (map strip earlier) = false) as ->.
  { apply not_true_iff_false. by intros H%in_list_true. }
  cbn [negb andb]. f_equal. apply IH; [done|].
  intros l Hl. destruct (Hfresh l) as [H1 H2]; [by right|]. split; [done|].
  rewrite map_app, elem_of_app. cbn [map]. rewrite list_elem_of_singleton.
  intros [H|H]; [done|]. apply Hn. rewrite <- H.
  by apply (list_elem_of_fmap_2 strip).
Qed.

Lemma sublist_elem {A : Type} (l k : list A) (x : A) :
  sublist l k -> x ∈ l -> x ∈ k.
Proof.
  induction 1 as [|y l k _ IH|y l k _ IH]; intros Hx; [done| |].
  - apply elem_of_cons in Hx as [->|Hx]; [by left | right; by apply IH].
  - right. by apply IH.
Qed.

End TextMore.

(** X3.  A label that the reply does not have gives its field the
    default: "No assessment provided", "Unknown", "No recommendations" and
    "null", each on its own. *)
Theorem X3_missing_label_defaults (decision : str) :
  let r := Reasoner.parse_report decision in
  (contains $"ASSESSMENT:" decision = false ->
   Reasoner.assessment r = $"No assessment provided")
  /\ (contains $"RISK_LEVEL:" decision = false ->
      Reasoner.risk_level r = $"Unknown")
  /\ (contains $"RECOMMENDATIONS:" decision = false ->
      Reasoner.recommendations r = $"No recommendations")
  /\ (contains $"QUESTIONS:" decision = false ->
      Reasoner.questions r = $"null").
Proof.
  intros r. subst r. unfold Reasoner.parse_report.
  cbn [Reasoner.assessment Reasoner.recommendations Reasoner.questions
       Reasoner.risk_level].
  split; [|split; [|split]]; intros H; try by apply field_absent.
  rewrite field_questions. unfold labelled_section.
  by rewrite after_label_absent.
Qed.

Lemma X3_witness :
  Reasoner.parse_report $"I cannot assess this project."
  = {| Reasoner.assessment := $"No assessment provided";
       Reasoner.risk_level := $"Unknown";
       Reasoner.recommendations := $"No recommendations";
       Reasoner.questions := $"null" |}.
Proof.
  pose proof (X3_missing_label_defaults $"I cannot assess this project.")
    as (Ha & Hr & Hc & Hq).
  specialize (Ha ltac:(vm_compute; reflexivity)).
  specialize (Hr ltac:(vm_compute; reflexivity)).
  specialize (Hc ltac:(vm_compute; reflexivity)).
  specialize (Hq ltac:(vm_compute; reflexivity)).
  destruct (Reasoner.parse_report _); simpl in *. by subst.
Defined.

(** X4.  Deduplicating a deduplicated text changes nothing. *)
Theorem X4_deduplication_idempotent (text : str) :
  Reasoner.deduplicate_recommendations
    (Reasoner.deduplicate_recommendations text)
  = Reasoner.deduplicate_recommendations text.
Proof.
  rewrite (deduplicate_kept text).
  set (lines := split_on "010"%char text).
  set (kept := first_occurrences [] lines).
  destruct kept as [|k0 kept'] eqn:Hk; [done|].
  rewrite <- Hk. rewrite deduplicate_kept. unfold Reasoner.nl.
  rewrite split_on_join.
  - rewrite first_occurrences_fixed; [done | apply first_occurrences_nodup |].
    intros line Hin. by apply first_occurrences_fresh in Hin.
  - by rewrite Hk.
  - intros l Hl. apply (split_on_no_sep _ text).
    by apply (sublist_elem _ _ _ (first_occurrences_sublist lines [])).
Qed.

Section RequirementsMore.

Lemma updated_line_is_entry (line l : str) :
  ProjectManager.updated_line ProjectManager.version_updates line = Some l ->
  l ∈ map (fun e => fst e ++ snd e) ProjectManager.version_updates.
Proof.
  generalize ProjectManager.version_updates.
  induction l0 as [|[pkg new_version] rest IH]; [done|].
  cbn [ProjectManager.updated_line map fst snd].
  destruct (startswith _ line).
  - intros [= <-]. by left.
  - intros H. right. by apply IH.
Qed.

(** Rewriting a rewritten line changes nothing. *)
Lemma fix_line_idem (line : str) :
  ProjectManager.fix_line (ProjectManager.fix_line line)
  = ProjectManager.fix_line line.
Proof.
  unfold ProjectManager.fix_line at 2 3.
  destruct (is_nil (strip line) || startswith $"#" (strip line)) eqn:Hc.
  - unfold ProjectManager.fix_line. by rewrite strip_idem, Hc.
  - destruct (ProjectManager.updated_line _ (strip line)) as [l|] eqn:Hu.
    + apply updated_line_is_entry in Hu.
      unfold ProjectManager.version_updates in Hu. cbn [map fst snd] in Hu.
      repeat (apply elem_of_cons in Hu as [->|Hu]);
        [reflexivity..|by apply elem_of_nil in Hu].
    + unfold ProjectManager.fix_line. by rewrite strip_idem, Hc, Hu.
Qed.

(** The lines of the rewritten manifest are the rewritten lines. *)
Lemma generate_requirements_fix_lines (text : str) :
  text <> [] ->
  split_on "010"%char (ProjectManager.generate_requirements_fix text)
  = map ProjectManager.fix_line (split_on "010"%char text).
Proof.
  intros Hne. unfold ProjectManager.generate_requirements_fix.
  destruct text as [|c text]; [done|]. cbn [is_nil].
  apply split_on_join.
  - intros Hnil. apply (f_equal length) in Hnil.
    rewrite length_map in Hnil.
    by destruct (split_on "010"%char (c :: text)) eqn:Hs;
      [destruct (split_on_not_nil "010"%char (c :: text))|].
  - intros l (y & -> & Hy)%list_elem_of_fmap.
    by apply fix_line_no_newline, (split_on_no_sep _ (c :: text)).
Qed.

End RequirementsMore.

(** X5.  Rewriting a rewritten manifest changes nothing, as long as the
    first rewriting left some text; a manifest of blanks only is rewritten
    to the empty text, and the empty text to the comment line that says no
    content was available. *)
Theorem X5_requirements_fix_idempotent (text : str) :
  ProjectManager.generate_requirements_fix text <> [] ->
  ProjectManager.generate_requirements_fix
    (ProjectManager.generate_requirements_fix text)
  = ProjectManager.generate_requirements_fix text.
Proof.
  intros Hout. destruct text as [|c text]; [reflexivity|].
  set (out := ProjectManager.generate_requirements_fix (c :: text)) in *.
  unfold ProjectManager.generate_requirements_fix at 1.
  destruct out as [|c' out'] eqn:Ho; [done|]. cbn [is_nil]. rewrite <- Ho.
  subst out. rewrite generate_requirements_fix_lines by done.
  rewrite map_map. unfold ProjectManager.generate_requirements_fix.
  cbn [is_nil]. f_equal. apply map_ext. intros l. apply fix_line_idem.
Qed.

Lemma X5_witness :
  ProjectManager.generate_requirements_fix
    (ProjectManager.generate_requirements_fix Demo.manifest)
  = ProjectManager.generate_requirements_fix Demo.manifest
  /\ ProjectManager.generate_requirements_fix $"  " = []
  /\ ProjectManager.generate_requirements_fix
       (ProjectManager.generate_requirements_fix $"  ")
     = $"# No requirements.txt content available for fixing".
Proof.
  split; [|split; reflexivity].
  apply (X5_requirements_fix_idempotent Demo.manifest). discriminate.
Defined.

(** * Further properties of the scan aggregator *)

Section AggregatorMore.

Lemma frameworks_of_content (content : str) (table : list (str * list str)) :
  forall (acc : gset str) (x : str),
    x ∈ foldl (fun acc fi =>
                 if existsb (fun indicator =>
                               contains (lower indicator) (lower content))
                      (snd fi)
                 then {[ fst fi ]} ∪ acc else acc) acc table
    <-> x ∈ acc \/ exists fi, fi ∈ table /\ fst fi = x /\ indicated content fi = true.
Proof.
  induction table as [|fi table IH]; intros acc x; cbn [foldl].
  - split; [by left|]. intros [H|(fi & H & _)]; [done|].
    by apply elem_of_nil in H.
  - rewrite IH. fold (indicated content fi).
    destruct (indicated content fi) eqn:Hfi.
    + rewrite elem_of_union, elem_of_singleton. split.
      * intros [[->|H]|(fj & Hj & Hx & Hh)].
        -- right. exists fi. split; [by left | done].
        -- by left.
        -- right. exists fj. split; [by right | done].
      * intros [H|(fj & Hj & Hx & Hh)]; [by left; right|].
        apply elem_of_cons in Hj as [->|Hj]; [by left; left|].
        right. by exists fj.
    + split.
      * intros [H|(fj & Hj & Hx & Hh)]; [by left|].
        right. exists fj. split; [by right | done].
      * intros [H|(fj & Hj & Hx & Hh)]; [by left|].
        apply elem_of_cons in Hj as [->|Hj]; [congruence|].
        right. by exists fj.
Qed.

Lemma frameworks_of_contents (code_content : list (str * str)) :
  forall (acc : gset str) (x : str),
    x ∈ foldl (fun acc fc =>
                 foldl (fun acc fi =>
                          if existsb (fun indicator =>
                                        contains (lower indicator)
                                          (lower (snd fc)))
                               (snd fi)
                          then {[ fst fi ]} ∪ acc else acc)
                   acc ProjectManager.framework_indicators) acc code_content
    <-> x ∈ acc
        \/ exists fc fi, fc ∈ code_content
             /\ fi ∈ ProjectManager.framework_indicators
             /\ fst fi = x /\ indicated (snd fc) fi = true.
Proof.
  induction code_content as [|fc rest IH]; intros acc x; cbn [foldl].
  - split; [by left|]. intros [H|(fc & fi & H & _)]; [done|].
    by apply elem_of_nil in H.
  - rewrite IH, frameworks_of_content. split.
    + intros [[H|(fi & Hi & Hx & Hh)]|(fc' & fi & Hc & Hi & Hx & Hh)].
      * by left.
      * right. exists fc, fi. split; [by left | done].
      * right. exists fc', fi. split; [by right | done].
    + intros [H|(fc' & fi & Hc & Hi & Hx & Hh)]; [by left; left|].
      apply elem_of_cons in Hc as [->|Hc].
      * left. right. by exists fi.
      * right. by exists fc', fi.
Qed.

End AggregatorMore.

(** X6.  [detect_frameworks] lists every framework one of whose
    indicators occurs, letter case apart, in the content of one of the
    sampled files, lists nothing else, and lists nothing twice. *)
Theorem X6_detected_frameworks (code_content : list (str * str)) :
  NoDup (ProjectManager.detect_frameworks code_content)
  /\ forall framework : str,
       framework ∈ ProjectManager.detect_frameworks code_content
       <-> exists file content indicators indicator,
             (file, content) ∈ code_content
             /\ (framework, indicators) ∈ ProjectManager.framework_indicators
             /\ indicator ∈ indicators
             /\ contains (lower indicator) (lower content) = true.
Proof.
  unfold ProjectManager.detect_frameworks. split; [apply NoDup_elements|].
  intros framework. rewrite elem_of_elements, frameworks_of_contents. split.
  - intros [H|([file content] & [fw indicators] & Hc & Hi & Hx & Hh)];
      [by apply elem_of_empty in H|].
    cbn [fst snd] in *. subst fw. unfold indicated in Hh. cbn [snd] in Hh.
    apply existsb_exists in Hh as (indicator & Hin & Hcont).
    exists file, content, indicators, indicator.
    by rewrite <- list_elem_of_In in Hin.
  - intros (file & content & indicators & indicator & Hc & Hi & Hin & Hcont).
    right. exists (file, content), (framework, indicators).
    split; [done|]. split; [done|]. split; [done|].
    unfold indicated. cbn [snd]. apply existsb_exists. exists indicator.
    by rewrite <- list_elem_of_In.
Qed.

Section BundleMore.

Context {W : Type} {sv : Services W}.

(** A strategy never raises. *)
Lemma run_json_tool_ok (cmd : list str) (timeout : Z) (rc : bool) (w : W) :
  exists v w', ProjectManager.run_json_tool cmd timeout rc w = (Ok v, w').
Proof.
  unfold ProjectManager.run_json_tool, bind, call.
  destruct (subprocess_run cmd timeout w) as [[e|p] w']; [by eexists _, _|].
  destruct (returncode p =? 0); [|by eexists _, _].
  destruct (json_loads (stdout p)); by eexists _, _.
Qed.

(** When the tools print JSON objects, a strategy gives a dictionary. *)
Lemma run_json_tool_dict (cmd : list str) (timeout : Z) (rc : bool) (w : W) :
  (forall s v, json_loads s = inr v -> exists d, v = VDict d) ->
  exists d w',
    ProjectManager.run_json_tool cmd timeout rc w = (Ok (VDict d), w').
Proof.
  intros Hjson. unfold ProjectManager.run_json_tool, bind, call.
  destruct (subprocess_run cmd timeout w) as [[e|p] w']; [by eexists _, _|].
  destruct (returncode p =? 0); [|by eexists _, _].
  destruct (json_loads (stdout p)) as [e|v] eqn:Hv; [by eexists _, _|].
  destruct (Hjson _ _ Hv) as [d ->]. by eexists _, _.
Qed.

Lemma try_strategies_dicts (strategies : list (M W value)) :
  (forall strategy w, strategy ∈ strategies ->
     exists d w', strategy w = (Ok (VDict d), w')) ->
  forall w, exists found w',
    ProjectManager.try_strategies strategies w = (Ok found, w').
Proof.
  induction strategies as [|strategy rest IH]; intros Hd w.
  - by eexists _, _.
  - destruct (Hd strategy w) as (d & w1 & Hs); [by left|].
    rewrite (try_strategies_cons _ _ _ _ _ Hs).
    destruct (acceptable d); [by eexists _, _|].
    apply IH. intros s w0 Hin. apply Hd. by right.
Qed.

Lemma semgrep_fallback_ok (self : ProjectManager.t) (w : W) :
  (forall s v, json_loads s = inr v -> exists d, v = VDict d) ->
  exists v w', ProjectManager._run_semgrep_with_fallback self w = (Ok v, w').
Proof.
  intros Hjson. unfold ProjectManager._run_semgrep_with_fallback, bind.
  destruct (try_strategies_dicts
              [ProjectManager._run_semgrep_basic self;
               ProjectManager._run_semgrep_security self;
               ProjectManager._run_semgrep_auto self]) with (w := w)
    as (found & w' & ->).
  - intros strategy w0 Hin.
    repeat (apply elem_of_cons in Hin as [->|Hin]);
      [by apply run_json_tool_dict..|by apply elem_of_nil in Hin].
  - destruct found; by eexists _, _.
Qed.

Lemma osv_fallback_ok (self : ProjectManager.t) (w : W) :
  (forall s v, json_loads s = inr v -> exists d, v = VDict d) ->
  exists v w', ProjectManager._run_osv_audit_with_fallback self w = (Ok v, w').
Proof.
  intros Hjson. unfold ProjectManager._run_osv_audit_with_fallback, bind.
  destruct (try_strategies_dicts
              [ProjectManager._run_osv_audit_standard self;
               ProjectManager._run_osv_audit_recursive self;
               ProjectManager._run_osv_audit_lockfile self]) with (w := w)
    as (found & w' & ->).
  - intros strategy w0 Hin.
    repeat (apply elem_of_cons in Hin as [->|Hin]);
      [by apply run_json_tool_dict..|by apply elem_of_nil in Hin].
  - destruct found; by eexists _, _.
Qed.

(** What [run_scan] gives once the pattern scan has given [semgrep_scan]. *)
Lemma run_scan_unfold (self : ProjectManager.t) (w : W) :
  ProjectManager.run_scan self w
  = let '(languages, w1) := detect_languages (ProjectManager.base_path self) w in
    let '(structure, w2) := get_file_structure (ProjectManager.base_path self) w1 in
    let '(file_contents, w3) :=
      analyze_file_contents (ProjectManager.base_path self) w2 in
    match ProjectManager._run_semgrep_with_fallback self w3 with
    | (Ok semgrep_scan, w4) =>
        let '(issues, w5) :=
          _identify_potential_issues (ProjectManager.base_path self) w4 in
        (Ok [($"languages", languages);
             ($"structure", structure);
             ($"file_contents", ProjectManager.contents_value file_contents);
             ($"semgrep_scan", semgrep_scan);
             ($"potential_issues", VList (map VStr issues));
             ($"detected_frameworks",
              VList (map VStr (ProjectManager.detect_frameworks file_contents)))],
         w5)
    | (Raise e, w4) => (Raise e, w4)
    end.
Proof.
  unfold ProjectManager.run_scan.
  unfold bind at 1. unfold call at 1.
  destruct (detect_languages _ w) as [languages w1].
  unfold bind at 1. unfold call at 1.
  destruct (get_file_structure _ w1) as [structure w2].
  unfold bind at 1. unfold call at 1.
  destruct (analyze_file_contents _ w2) as [file_contents w3].
  unfold bind at 1.
  destruct (ProjectManager._run_semgrep_with_fallback self w3)
    as [[semgrep_scan|e] w4]; [|done].
  unfold bind at 1. unfold call at 1.
  by destruct (_identify_potential_issues _ w4) as [issues w5].
Qed.

Lemma run_audit_unfold (self : ProjectManager.t) (w : W) :
  ProjectManager.run_audit self w
  = match ProjectManager._run_osv_audit_with_fallback self w with
    | (Ok osv_scanner, w1) =>
        let '(dependency_files, w2) :=
          _find_dependency_files (ProjectManager.base_path self) w1 in
        let '(manual_checks, w3) :=
          _manual_dependency_checks (ProjectManager.base_path self) w2 in
        (Ok [($"osv_scanner", osv_scanner);
             ($"dependency_files", dependency_files);
             ($"manual_checks", VList (map VStr manual_checks))], w3)
    | (Raise e, w1) => (Raise e, w1)
    end.
Proof.
  unfold ProjectManager.run_audit. unfold bind at 1.
  destruct (ProjectManager._run_osv_audit_with_fallback self w)
    as [[osv_scanner|e] w1]; [|done].
  unfold bind at 1. unfold call at 1.
  destruct (_find_dependency_files _ w1) as [dependency_files w2].
  unfold bind at 1. unfold call at 1.
  by destruct (_manual_dependency_checks _ w2) as [manual_checks w3].
Qed.

(** X7.  The bundle of [run_scan] has no [languages_detected] entry (its
    languages are under [languages]), so [analyze] never runs the
    language-specific scans on it. *)
Theorem X7_language_scans_never_run
    (self : ProjectManager.t) (w w' : W) (bundle : list (str * value)) :
  ProjectManager.run_scan self w = (Ok bundle, w') ->
  dict_get bundle $"languages_detected" = None
  /\ Reasoner.language_scans bundle = Ok [].
Proof.
  rewrite run_scan_unfold.
  destruct (detect_languages _ w) as [languages w1].
  destruct (get_file_structure _ w1) as [structure w2].
  destruct (analyze_file_contents _ w2) as [file_contents w3].
  destruct (ProjectManager._run_semgrep_with_fallback self w3)
    as [[semgrep_scan|e] w4]; [|done].
  destruct (_identify_potential_issues _ w4) as [issues w5].
  intros [= <- <-]. split; reflexivity.
Qed.

(** X8.  When the tools print JSON objects, none of their failures gets
    out of the aggregator: whatever the subprocesses do (raise, exit with
    an error, print what is no JSON), [run_scan] returns a bundle with its
    six entries and [run_audit] one with its three. *)
Theorem X8_tool_failures_are_isolated (self : ProjectManager.t) (w : W) :
  (forall s v, json_loads s = inr v -> exists d, v = VDict d) ->
  (exists bundle w',
     ProjectManager.run_scan self w = (Ok bundle, w')
     /\ map fst bundle
        = [$"languages"; $"structure"; $"file_contents"; $"semgrep_scan";
           $"potential_issues"; $"detected_frameworks"])
  /\ (exists bundle w',
        ProjectManager.run_audit self w = (Ok bundle, w')
        /\ map fst bundle
           = [$"osv_scanner"; $"dependency_files"; $"manual_checks"]).
Proof.
  intros Hjson. split.
  - rewrite run_scan_unfold.
    destruct (detect_languages _ w) as [languages w1].
    destruct (get_file_structure _ w1) as [structure w2].
    destruct (analyze_file_contents _ w2) as [file_contents w3].
    destruct (semgrep_fallback_ok self w3 Hjson) as (v & w4 & ->).
    destruct (_identify_potential_issues _ w4) as [issues w5].
    by eexists _, _.
  - rewrite run_audit_unfold.
    destruct (osv_fallback_ok self w Hjson) as (v & w1 & ->).
    destruct (_find_dependency_files _ w1) as [dependency_files w2].
    destruct (_manual_dependency_checks _ w2) as [manual_checks w3].
    by eexists _, _.
Qed.

(** X9.  A tool that exits with status 0 and prints JSON that is truthy
    and no object (a non-empty array, say) makes the chain raise
    [AttributeError], and [run_scan] with it: the later strategies and the
    later probes are not run. *)
Theorem X9_non_object_output_raises
    (self : ProjectManager.t) (w w1 w2 w3 w4 : W)
    (languages structure : value) (file_contents : list (str * str))
    (p : completed_process) (v : value) :
  detect_languages (ProjectManager.base_path self) w = (languages, w1) ->
  get_file_structure (ProjectManager.base_path self) w1 = (structure, w2) ->
  analyze_file_contents (ProjectManager.base_path self) w2
  = (file_contents, w3) ->
  subprocess_run
    [ProjectManager.semgrep_path self; $"--pattern"; $"def $F(...): ...";
     $"--json"; ProjectManager.base_path self] 120 w3 = (inr p, w4) ->
  returncode p = 0 ->
  json_loads (stdout p) = inr v ->
  truthy v = true ->
  (forall d, v <> VDict d) ->
  ProjectManager._run_semgrep_with_fallback self w3
  = (Raise (AttributeError $"get"), w4)
  /\ ProjectManager.run_scan self w = (Raise (AttributeError $"get"), w4).
Proof.
  intros Hl Hs Hf Hrun Hrc Hjson Htruthy Hnd.
  assert (ProjectManager._run_semgrep_with_fallback self w3
          = (Raise (AttributeError $"get"), w4)) as Hsem.
  { unfold ProjectManager._run_semgrep_with_fallback.
    unfold bind at 1. cbn [ProjectManager.try_strategies].
    unfold bind at 1.
    unfold ProjectManager._run_semgrep_basic, ProjectManager.run_json_tool.
    unfold bind at 1. unfold call at 1. rewrite Hrun, Hrc. cbn [Z.eqb].
    rewrite Hjson. unfold ret at 1. unfold bind at 1.
    unfold ProjectManager.accepted. rewrite Htruthy.
    destruct v; try done. by destruct (Hnd d). }
  split; [done|]. by rewrite run_scan_unfold, Hl, Hs, Hf, Hsem.
Qed.

End BundleMore.

Lemma X7_witness :
  exists bundle w',
    ProjectManager.run_scan (sv := Demo.sv)
      (ProjectManager.init (os := Demo.os) $"/proj") []
    = (Ok bundle, w')
    /\ Reasoner.language_scans bundle = Ok [].
Proof.
  destruct (ProjectManager.run_scan (sv := Demo.sv)
              (ProjectManager.init (os := Demo.os) $"/proj") [])
    as [[bundle|e] w'] eqn:Hrun; [|vm_compute in Hrun; discriminate Hrun].
  exists bundle, w'. split; [reflexivity|].
  exact (proj2 (X7_language_scans_never_run (sv := Demo.sv) _ _ _ _ Hrun)).
Defined.

Lemma demo_json_objects (s : str) (v : value) :
  json_loads (Services := Demo.object_sv) s = inr v -> exists d, v = VDict d.
Proof. intros [= <-]. by eexists. Qed.

Lemma X8_witness :
  json_loads (Services := Demo.object_sv) $"{}"
  = inr (VDict [($"results", VList [])])
  /\ exists bundle w',
       ProjectManager.run_audit (sv := Demo.object_sv)
         (ProjectManager.init (os := Demo.os) $"/proj") []
       = (Ok bundle, w')
       /\ map fst bundle
          = [$"osv_scanner"; $"dependency_files"; $"manual_checks"].
Proof.
  split; [reflexivity|].
  exact (proj2 (X8_tool_failures_are_isolated (sv := Demo.object_sv)
                  (ProjectManager.init (os := Demo.os) $"/proj") []
                  demo_json_objects)).
Defined.

Lemma X9_witness :
  ProjectManager.run_scan (sv := Demo.array_sv)
    (ProjectManager.init (os := Demo.os) $"/proj") []
  = (Raise (AttributeError $"get"), [$"/opt/tool/venv/Scripts/semgrep.exe"]).
Proof.
  refine (proj2 (X9_non_object_output_raises (sv := Demo.array_sv)
                   (ProjectManager.init (os := Demo.os) $"/proj")
                   [] [] [] [] _ _ _ _ _ (VList [VInt 1])
                   eq_refl eq_refl eq_refl eq_refl eq_refl eq_refl eq_refl _)).
  discriminate.
Defined.

(** * Further properties of the path resolver *)

Section PathResolverMore.

Context {os : OsPath}.

Lemma word_paths_elem (word x : str) :
  x ∈ Reasoner.word_paths word
  <-> (path_exists word && path_isdir word = true /\ x = path_abspath word)
      \/ (path_exists (path_join getcwd word)
          && path_isdir (path_join getcwd word) = true
          /\ x = path_abspath (path_join getcwd word)).
Proof.
  unfold Reasoner.word_paths. rewrite elem_of_union.
  destruct (path_exists word && path_isdir word);
    destruct (path_exists (path_join getcwd word)
              && path_isdir (path_join getcwd word));
    rewrite ?elem_of_singleton, ?elem_of_empty; naive_solver.
Qed.

Lemma scan_words_spec (words : list str) :
  forall (acc : gset str) (x : str),
    x ∈ Reasoner.scan_words acc words
    <-> x ∈ acc
        \/ exists word, word ∈ words
             /\ Reasoner.in_list (lower word) Reasoner.stop_words = false
             /\ x ∈ Reasoner.word_paths word.
Proof.
  induction words as [|word rest IH]; intros acc x; cbn [Reasoner.scan_words].
  - split; [by left|]. intros [H|(word & H & _)]; [done|].
    by apply elem_of_nil in H.
  - destruct (Reasoner.in_list (lower word) Reasoner.stop_words) eqn:Hstop;
      rewrite IH.
    + split.
      * intros [H|(w0 & Hin & Hns & Hx)]; [by left|].
        right. exists w0. split; [by right | done].
      * intros [H|(w0 & Hin & Hns & Hx)]; [by left|].
        apply elem_of_cons in Hin as [->|Hin]; [congruence|].
        right. by exists w0.
    + rewrite elem_of_union. split.
      * intros [[H|H]|(w0 & Hin & Hns & Hx)].
        -- by left.
        -- right. exists word. split; [by left | done].
        -- right. exists w0. split; [by right | done].
      * intros [H|(w0 & Hin & Hns & Hx)]; [by left; left|].
        apply elem_of_cons in Hin as [->|Hin]; [by left; right|].
        right. by exists w0.
Qed.

(** X10.  When no path pattern is found, the candidates of
    [extract_path] are the absolute forms of the words of the text that
    are no stop words and name an existing directory, as they stand or
    under the current directory, each candidate once.  With no candidate
    the result is [None]; with one, that candidate; with two or more, the
    word AMBIGUOUS, and the candidates are stored, each once. *)
Theorem X10_candidates_of_the_word_loop
    (self : Reasoner.t) (user_input : str) :
  no_path_shape user_input ->
  let candidates := Reasoner.scan_words ∅ (split user_input) in
  (forall x, x ∈ candidates
     <-> exists word, word ∈ split user_input
           /\ Reasoner.in_list (lower word) Reasoner.stop_words = false
           /\ ((path_exists word && path_isdir word = true
                /\ x = path_abspath word)
               \/ (path_exists (path_join getcwd word)
                   && path_isdir (path_join getcwd word) = true
                   /\ x = path_abspath (path_join getcwd word))))
  /\ (candidates = ∅ -> Reasoner.extract_path self user_input = (None, self))
  /\ (forall p, candidates = {[ p ]} ->
        Reasoner.extract_path self user_input = (Some p, self))
  /\ ((2 <= size candidates)%nat ->
      exists paths,
        Reasoner.extract_path self user_input
        = (Some Reasoner.AMBIGUOUS, Reasoner.set_ambiguous_paths paths self)
        /\ NoDup paths
        /\ length paths = size candidates
        /\ forall x, x ∈ paths <-> x ∈ candidates).
Proof.
  intros Hshape candidates. unfold no_path_shape in Hshape.
  split; [|split; [|split]].
  - intros x. unfold candidates. rewrite scan_words_spec. split.
    + intros [H|(word & Hin & Hns & Hx)]; [by apply elem_of_empty in H|].
      exists word. by rewrite <- word_paths_elem.
    + intros (word & Hin & Hns & Hx). right. exists word.
      by rewrite word_paths_elem.
  - intros Hc. unfold Reasoner.extract_path. rewrite Hshape.
    fold candidates. by rewrite Hc, elements_empty.
  - intros p Hc. unfold Reasoner.extract_path. rewrite Hshape.
    fold candidates. by rewrite Hc, elements_singleton.
  - intros Hsize. unfold Reasoner.extract_path. rewrite Hshape.
    fold candidates.
    assert (size candidates = length (elements candidates)) as Hlen by done.
    pose proof (NoDup_elements candidates) as Hnd.
    assert (forall x, x ∈ elements candidates <-> x ∈ candidates) as Hel
      by (intros x; apply elem_of_elements).
    destruct (elements candidates) as [|p1 [|p2 ps]] eqn:He;
      [simpl in Hlen; lia..|].
    exists (p1 :: p2 :: ps). by rewrite Hlen.
Qed.

End PathResolverMore.

Lemma X10_witness :
  exists paths,
    Reasoner.extract_path (os := Demo.os) Reasoner.init $"scan app lib"
    = (Some Reasoner.AMBIGUOUS, Reasoner.set_ambiguous_paths paths Reasoner.init)
    /\ length paths = 2%nat.
Proof.
  destruct (X10_candidates_of_the_word_loop (os := Demo.os) Reasoner.init
              $"scan app lib" ltac:(vm_compute; reflexivity))
    as (_ & _ & _ & Hmany).
  destruct Hmany as (paths & Hrun & _ & Hlen & _); [vm_compute; lia|].
  exists paths. split; [exact Hrun|]. rewrite Hlen. vm_compute. reflexivity.
Defined.

Section PatternsMore.

Context {os : OsPath}.

(** A match that [search] finds is a part of the text. *)
Lemma search_infix (r : regex) (s : str) (m : match_obj) :
  search r s = Some m -> exists pre post, s = pre ++ group0 m ++ post.
Proof.
  induction s as [|c s IH]; rewrite search_unfold.
  - destruct (match_at r []) eqn:Hm; [|done]. intros [= <-].
    apply match_at_sound in Hm as [_ [rest Hr]]. by exists [], rest.
  - destruct (match_at r (c :: s)) eqn:Hm.
    + intros [= <-]. apply match_at_sound in Hm as [_ [rest Hr]].
      by exists [], rest.
    + intros H. destruct (IH H) as (pre & post & ->).
      by exists (c :: pre), post.
Qed.

(** X11.  The drive-letter pattern stops at the first backslash or
    letter s after the drive: when it is the first pattern found, the
    match is a letter, a colon, a backslash and then characters that are
    neither a backslash nor an s, and [extract_path] returns that match,
    cleaned, without a look at the disk. *)
Theorem X11_drive_pattern_stops_early
    (self : Reasoner.t) (user_input : str) (unix drive : regex)
    (rest : list regex) (m : match_obj) :
  Reasoner.path_patterns = unix :: drive :: rest ->
  search unix user_input = None ->
  search drive user_input = Some m ->
  Reasoner.extract_path self user_input
  = (Some (Reasoner.clean_path (group0 m)), self)
  /\ exists d t,
       group0 m = d :: ":"%char :: "\"%char :: t
       /\ is_alpha_ascii d = true
       /\ forall c, c ∈ t -> c <> "\"%char /\ c <> "s"%char.
Proof.
  intros Hpat Hunix Hdrive. split.
  - unfold Reasoner.extract_path. rewrite Hpat.
    cbn [Reasoner.first_pattern]. by rewrite Hunix, Hdrive.
  - injection Hpat as _ <- _. apply search_sound in Hdrive.
    destruct Hdrive as (m1 & m2 & -> & (d & -> & Hd)
                        & (m3 & m4 & -> & (c1 & -> & Hc1)
                           & (m5 & m6 & -> & (c2 & -> & Hc2) & Ht))).
    apply eqc_true in Hc1, Hc2. subst c1 c2. exists d, m6.
    split; [done|]. split; [done|]. intros c Hc. cbn [consumes] in Ht.
    rewrite Forall_forall in Ht. specialize (Ht c Hc).
    apply negb_true_iff in Ht. unfold Reasoner.backslash_or_s in Ht.
    apply orb_false_iff in Ht as [H1 H2].
    split; intros ->; by rewrite eqc_refl in *.
Qed.

(** X12.  A match of the Unix pattern starts with a slash, has a second
    slash and no whitespace; a text with fewer than two slashes has no
    match, so a path such as /tmp can only come from the word loop. *)
Theorem X12_unix_pattern_wants_two_slashes
    (user_input : str) (unix : regex) (rest : list regex) :
  Reasoner.path_patterns = unix :: rest ->
  (forall m, search unix user_input = Some m ->
     exists t1 t2,
       group0 m = "/"%char :: t1 ++ "/"%char :: t2
       /\ forall c, c ∈ group0 m -> is_space c = false)
  /\ ((length (filter (fun c => c = "/"%char) user_input) < 2)%nat ->
      search unix user_input = None).
Proof.
  intros Hpat. injection Hpat as <- _.
  assert (forall m,
            search (Seq (Chr (eqc "/")) (Seq (StarG non_space)
                      (Seq (Chr (eqc "/")) (StarG non_space)))) user_input
            = Some m ->
            exists t1 t2,
              group0 m = "/"%char :: t1 ++ "/"%char :: t2
              /\ forall c, c ∈ group0 m -> is_space c = false) as Hshape.
  { intros m Hm. apply search_sound in Hm.
    destruct Hm as (m1 & m2 & -> & (c1 & -> & Hc1)
                    & (t1 & m4 & -> & Ht1
                       & (m5 & t2 & -> & (c2 & -> & Hc2) & Ht2))).
    apply eqc_true in Hc1, Hc2. subst c1 c2. exists t1, t2.
    split; [done|]. cbn [consumes] in Ht1, Ht2.
    rewrite Forall_forall in Ht1, Ht2. intros c Hc.
    cbn [app] in Hc. apply elem_of_cons in Hc as [->|Hc]; [done|].
    apply elem_of_app in Hc as [Hc|Hc].
    - apply Ht1 in Hc. by apply negb_true_iff in Hc.
    - cbn [app] in Hc. apply elem_of_cons in Hc as [->|Hc]; [done|].
      apply Ht2 in Hc. by apply negb_true_iff in Hc. }
  split; [exact Hshape|].
  intros Hcount.
  destruct (search _ user_input) as [m|] eqn:Hm; [|done]. exfalso.
  destruct (Hshape m eq_refl) as (t1 & t2 & Hg & _).
  apply search_infix in Hm as (pre & post & Hs).
  rewrite Hs, Hg in Hcount.
  rewrite filter_app, length_app in Hcount. cbn [app] in Hcount.
  rewrite filter_cons_True in Hcount by done.
  rewrite filter_app, length_cons, length_app in Hcount.
  rewrite filter_app, filter_cons_True, length_app in Hcount by done.
  rewrite length_cons in Hcount. lia.
Qed.

End PatternsMore.

Lemma X11_witness :
  Reasoner.extract_path (os := Demo.os) Reasoner.init $"scan C:\Users\me now"
  = (Some $"C:\U", Reasoner.init).
Proof.
  destruct (Reasoner.path_patterns) as [|unix [|drive rest]] eqn:Hpat;
    [discriminate Hpat..|].
  destruct (search drive $"scan C:\Users\me now") as [m|] eqn:Hm;
    [|injection Hpat as _ <- _; vm_compute in Hm; discriminate Hm].
  rewrite (proj1 (X11_drive_pattern_stops_early (os := Demo.os) Reasoner.init
                    $"scan C:\Users\me now" unix drive rest m Hpat
                    ltac:(injection Hpat as <- _ _; vm_compute; reflexivity)
                    Hm)).
  injection Hpat as _ <- _. vm_compute in Hm. injection Hm as <-.
  vm_compute. reflexivity.
Defined.

Lemma X12_witness :
  Reasoner.first_pattern (take 1 Reasoner.path_patterns) $"scan /tmp now"
  = None.
Proof.
  destruct Reasoner.path_patterns as [|unix rest] eqn:Hpat;
    [discriminate Hpat|].
  cbn [take Reasoner.first_pattern].
  rewrite (proj2 (X12_unix_pattern_wants_two_slashes $"scan /tmp now" unix rest
                    Hpat)); [reflexivity|].
  vm_compute. lia.
Defined.

(** * The question and answer loop *)

Section LoopFacts.

Lemma int_digits_bad (c : ascii) (ds : str) :
  c ∈ ds -> is_digit c = false -> eqc c "_" = false ->
  forall (acc : Z) (n : nat) (prev_digit : bool),
    int_digits acc n prev_digit ds = None.
Proof.
  intros Hin Hd Hu. induction ds as [|x ds IH]; intros acc n prev_digit.
  - by apply elem_of_nil in Hin.
  - cbn [int_digits]. apply elem_of_cons in Hin as [<-|Hin].
    + by rewrite Hd, Hu.
    + destruct (is_digit x); [by apply IH|].
      destruct (eqc x "_"); [|done].
      destruct prev_digit; [by apply IH | done].
Qed.

Lemma lstrip_head (s t : str) (c : ascii) :
  lstrip s = c :: t -> is_space c = false.
Proof.
  induction s as [|x s IH]; [done|]. cbn [lstrip].
  destruct (is_space x) eqn:Hx; [done|]. by intros [= <- _].
Qed.

Lemma lstrip_nonspace (c : ascii) (t : str) :
  is_space c = false -> lstrip (c :: t) = c :: t.
Proof. intros H. cbn [lstrip]. by rewrite H. Qed.

(** The stripped form of a request followed by a blank and an answer:
    that of the request when the answer is blank, and otherwise a text
    with a blank inside. *)
Lemma strip_request_answer (r a : str) :
  strip r <> [] ->
  strip (r ++ $" " ++ a) = strip r
  \/ exists c t,
       strip (r ++ $" " ++ a) = c :: t
       /\ is_space c = false /\ " "%char ∈ t.
Proof.
  intros Hr.
  destruct (lstrip r) as [|c r1] eqn:Hl; [by unfold strip in Hr; rewrite Hl in Hr|].
  pose proof (lstrip_head _ _ _ Hl) as Hc.
  destruct (lstrip_split r) as (ws & Hws & Hsp). rewrite Hl in Hws.
  assert (lstrip (r ++ $" " ++ a) = (c :: r1) ++ " "%char :: a) as Hx.
  { rewrite Hws at 1. rewrite <- app_assoc, lstrip_app_spaces by done.
    by apply lstrip_nonspace. }
  unfold strip. rewrite Hx, Hl. unfold rstrip.
  rewrite rev_app_distr. cbn [rev]. rewrite <- !app_assoc.
  destruct (lstrip_split (rev a)) as (ws' & Ha & Hsp').
  destruct (lstrip (rev a)) as [|d u] eqn:Hu.
  - left. rewrite app_nil_r in Ha. rewrite Ha.
    rewrite lstrip_app_spaces by done. cbn [app].
    change (lstrip (" "%char :: ?x)) with (lstrip x). done.
  - right. pose proof (lstrip_head _ _ _ Hu) as Hd.
    rewrite Ha, <- app_assoc, lstrip_app_spaces by done.
    cbn [app]. rewrite lstrip_nonspace by done.
    exists c, (r1 ++ " "%char :: rev (d :: u)). split; [|split; [done|]].
    + assert (d :: u ++ " "%char :: rev r1 ++ [c]
              = (d :: u) ++ [" "%char] ++ rev (c :: r1)) as -> by done.
      rewrite !rev_app_distr, rev_involutive.
      change (rev [" "%char]) with [" "%char].
      by rewrite <- !app_assoc.
    + apply elem_of_app. right. by left.
Qed.

Lemma py_int_request_answer (max_str_digits : nat) (r a : str) :
  strip r <> [] -> py_int max_str_digits r = None ->
  strip (r ++ $" " ++ a) <> []
  /\ py_int max_str_digits (r ++ $" " ++ a) = None.
Proof.
  intros Hr Hint.
  destruct (strip_request_answer r a Hr) as [Hs|(c & t & Hs & Hc & Hin)].
  - split; [by rewrite Hs|]. unfold py_int in *. by rewrite Hs.
  - split; [by rewrite Hs|]. unfold py_int. rewrite Hs.
    assert (forall acc n b, int_digits acc n b t = None) as Ht
      by by apply (int_digits_bad " "%char).
    assert (forall acc n b, int_digits acc n b (c :: t) = None) as Hct
      by (apply (int_digits_bad " "%char); [by right | done..]).
    destruct (eqc c "-"); [by rewrite Ht|].
    destruct (eqc c "+"); [by rewrite Ht | by rewrite Hct].
Qed.

End LoopFacts.

(** X13.  In the loop of [send_to_reasoner] every answer is appended to
    the request, and [analyze] is given the whole.  While a selection is
    awaited that text is no number, so a number typed in answer to the
    question about the candidates selects nothing: unless some existing
    directory has a name that starts with the request, every answer is
    refused, the state stays as it was and the loop goes on to the end of
    the input. *)
Theorem X13_answers_in_the_loop_select_nothing
    {os : OsPath} {W : Type} {sv : Services W}
    (max_str_digits depth : nat) (stdin : list str) (user_request : str)
    (self : Reasoner.t) (w : W) :
  Reasoner.waiting_for_path_selection self = true ->
  strip user_request <> [] ->
  py_int max_str_digits user_request = None ->
  (forall p, startswith user_request p = true ->
     path_exists p && path_isdir p = false) ->
  Augment.send_to_reasoner max_str_digits (S depth) stdin user_request (self, w)
  = (Augment.EndOfInput, (self, w)).
Proof.
  intros Hwait. revert user_request.
  induction stdin as [|answer stdin IH]; intros user_request Hne Hint Hdir;
    cbn [Augment.send_to_reasoner]; rewrite analyze_unfold, Hwait;
    unfold Reasoner.handle_path_selection;
    rewrite py_int_strip, Hint, (Hdir user_request)
      by (apply startswith_true; exists []; by rewrite app_nil_r);
    change (startswith $"QUESTION:" Reasoner.invalid_path) with true;
    cbn match; [done|].
  destruct (py_int_request_answer max_str_digits user_request answer Hne Hint)
    as [Hne' Hint'].
  apply IH; [done..|].
  intros p [x ->]%startswith_true. apply Hdir. apply startswith_true.
  exists (($" " ++ answer) ++ x). by rewrite <- !app_assoc.
Qed.

Lemma X13_witness :
  let st :=
    snd (Reasoner.analyze (os := Demo.os) (sv := Demo.sv) 4300 2
           $"scan app lib" (Reasoner.init, [])) in
  Augment.send_to_reasoner (os := Demo.os) (sv := Demo.sv) 4300 2
    [$"1"; $"2"] ($"scan app lib" ++ $" " ++ $"1") st
  = (Augment.EndOfInput, st).
Proof.
  intros st.
  assert (st = (fst st, [])) as -> by (vm_compute; reflexivity).
  apply (X13_answers_in_the_loop_select_nothing (os := Demo.os) (sv := Demo.sv)).
  - vm_compute. reflexivity.
  - vm_compute. discriminate.
  - vm_compute. reflexivity.
  - intros p [x ->]%startswith_true. reflexivity.
Defined.

(** * The language census *)

Section CensusFacts.

Import LanguageCensus.

Lemma count_of_set_count (counts : list (str * Z)) (l l' : str) (n : Z) :
  count_of (set_count counts l n) l' = if eqs l l' then n else count_of counts l'.
Proof.
  induction counts as [|[k m] rest IH]; cbn [set_count count_of].
  - done.
  - destruct (eqs k l) eqn:Hk; cbn [count_of].
    + apply eqs_true in Hk as ->. by destruct (eqs l l').
    + rewrite IH. destruct (eqs l l') eqn:Hll; [|done].
      apply eqs_true in Hll as <-. by rewrite Hk.
Qed.

Lemma total_set_count (counts : list (str * Z)) (l : str) (n : Z) :
  census_total (set_count counts l n) = census_total counts - count_of counts l + n.
Proof.
  unfold census_total. induction counts as [|[k m] rest IH];
    cbn [set_count count_of map foldr snd]; [lia|].
  destruct (eqs k l); cbn [map foldr snd]; lia.
Qed.

Lemma keys_set_count (counts : list (str * Z)) (l : str) (n : Z) :
  map fst (set_count counts l n)
  = if decide (l ∈ map fst counts) then map fst counts
    else map fst counts ++ [l].
Proof.
  induction counts as [|[k m] rest IH]; cbn [set_count map fst].
  - by rewrite decide_False by apply not_elem_of_nil.
  - destruct (eqs k l) eqn:Hk; cbn [map fst].
    + apply eqs_true in Hk as ->. by rewrite decide_True by by left.
    + rewrite IH. apply eqs_false in Hk.
      destruct (decide (l ∈ map fst rest)).
      * by rewrite decide_True by by right.
      * rewrite decide_False; [done|].
        intros [?|?]%elem_of_cons; congruence.
Qed.

Lemma elem_of_set_count (counts : list (str * Z)) (l k : str) (n m : Z) :
  (k, m) ∈ set_count counts l n -> (k, m) ∈ counts \/ (k = l /\ m = n).
Proof.
  induction counts as [|[k0 m0] rest IH]; cbn [set_count].
  - intros [= -> ->]%list_elem_of_singleton. by right.
  - destruct (eqs k0 l) eqn:Hk.
    + apply eqs_true in Hk as ->.
      intros [[= -> ->]|H]%elem_of_cons; [by right | left; by right].
    + intros [[= -> ->]|H]%elem_of_cons; [left; by left|].
      destruct (IH H) as [?|?]; [left; by right | by right].
Qed.

Lemma count_of_nonneg (counts : list (str * Z)) (l : str) :
  (forall k m, (k, m) ∈ counts -> 1 <= m) -> 0 <= count_of counts l.
Proof.
  induction counts as [|[k m] rest IH]; intros H; cbn [count_of]; [done|].
  destruct (eqs k l).
  - specialize (H k m ltac:(by left)). lia.
  - apply IH. intros k' m' Hin. apply (H k' m'). by right.
Qed.

Lemma count_file_invariant (st : list (str * Z) * Z) (file : str) :
  census_invariant st -> census_invariant (count_file st file).
Proof.
  intros (Hsum & Hnd & Hpos). unfold count_file.
  destruct (language_of _ _) as [language|]; [|done].
  split; [|split]; cbn [fst snd].
  - rewrite total_set_count. lia.
  - rewrite keys_set_count. destruct (decide _); [done|].
    apply NoDup_app. split; [done|]. split; [|apply NoDup_singleton].
    by intros x Hx ->%list_elem_of_singleton.
  - intros k m [H|[-> ->]]%elem_of_set_count; [by apply (Hpos k)|].
    pose proof (count_of_nonneg (fst st) language Hpos). lia.
Qed.

Lemma count_files_invariant (files : list str) (st : list (str * Z) * Z) :
  census_invariant st -> census_invariant (foldl count_file st files).
Proof.
  revert st. induction files as [|file rest IH]; intros st H; [done|].
  cbn [foldl]. by apply IH, count_file_invariant.
Qed.

(** What [count_file] adds: one to the count of the file's language, and
    one to the file count when the file has a language. *)
Lemma count_files_counts (files : list str) :
  forall (st : list (str * Z) * Z) (l : str),
    count_of (fst (foldl count_file st files)) l
    = count_of (fst st) l
      + Z.of_nat (length (filter (fun f =>
                                    language_of language_extensions
                                      (snd (splitext f)) = Some l) files))
    /\ snd (foldl count_file st files)
       = snd st
         + Z.of_nat (length (filter (fun f =>
                                       is_Some (language_of language_extensions
                                                  (snd (splitext f)))) files)).
Proof.
  induction files as [|file rest IH]; intros st l; cbn [foldl].
  - rewrite !filter_nil. cbn [length]. lia.
  - destruct (IH (count_file st file) l) as [-> ->].
    rewrite !filter_cons. unfold count_file.
    destruct (language_of language_extensions (snd (splitext file)))
      as [language|] eqn:Hl; cbn [fst snd].
    + rewrite count_of_set_count.
      rewrite (decide_True (P := is_Some (Some language))) by eauto.
      destruct (decide (Some language = Some l)) as [[= ->]|Hne].
      * rewrite eqs_refl. cbn [length]. lia.
      * assert (eqs language l = false) as ->
          by (apply eqs_false; congruence).
        cbn [length]. lia.
    + rewrite decide_False by done.
      rewrite decide_False by (by intros [? ?]). lia.
Qed.

Lemma census_concat (entries : list (str * list str * list str)) :
  forall st,
    foldl (fun st entry => foldl count_file st (snd entry)) st entries
    = foldl count_file st (concat (map snd entries)).
Proof.
  induction entries as [|entry rest IH]; intros st; cbn [foldl map concat];
    [done|].
  by rewrite IH, foldl_app.
Qed.

End CensusFacts.

(** X14.  The census of [detect_languages] over the files of the walk:
    a language is counted once for each file whose extension, from its
    last dot and in the letter case of the table, maps to it; no language
    is listed twice or with a count below 1; and [total_files] is the
    number of files with a known extension, which is the sum of the
    counts. *)
Theorem X14_language_census (entries : list (str * list str * list str)) :
  let files := concat (map snd entries) in
  let language file :=
    LanguageCensus.language_of LanguageCensus.language_extensions
      (snd (LanguageCensus.splitext file)) in
  exists (counts : list (str * Z)) (total_files : Z),
    LanguageCensus.detect_languages (inr entries)
    = VDict [($"languages",
              VDict (map (fun c => (fst c, VInt (snd c))) counts));
             ($"total_files", VInt total_files)]
    /\ NoDup (map fst counts)
    /\ (forall l, LanguageCensus.count_of counts l
                  = Z.of_nat (length (filter (fun f => language f = Some l) files)))
    /\ (forall l n, (l, n) ∈ counts -> 1 <= n)
    /\ total_files
       = Z.of_nat (length (filter (fun f => is_Some (language f)) files))
    /\ total_files = foldr Z.add 0 (map snd counts).
Proof.
  intros files language. unfold LanguageCensus.detect_languages.
  destruct (LanguageCensus.census entries) as [counts n] eqn:Hc.
  exists counts, n. split; [done|].
  unfold LanguageCensus.census in Hc. rewrite census_concat in Hc.
  fold files in Hc.
  assert (census_invariant (counts, n)) as (Hsum & Hnd & Hpos).
  { rewrite <- Hc. apply count_files_invariant.
    split; [done|]. split; [constructor|]. intros k m H.
    by apply elem_of_nil in H. }
  split; [done|]. split; [|split; [done|split; [|done]]].
  - intros l. destruct (count_files_counts files ([], 0) l) as [H _].
    rewrite Hc in H. cbn [fst LanguageCensus.count_of] in H. by rewrite H.
  - destruct (count_files_counts files ([], 0) []) as [_ H].
    rewrite Hc in H. cbn [snd] in H. by rewrite H.
Qed.

(** X15.  A text in which a path pattern is found is handled as a
    request about a project whether or not it has one of the keywords, and
    the path found is validated before anything else is done: when it is
    no existing directory, [analyze] asks for a valid path, and it neither
    tries the word loop nor calls a scanner or the completion service. *)
Theorem X15_path_found_is_validated_first
    {os : OsPath} {W : Type} {sv : Services W}
    (max_str_digits depth : nat) (user_input path : str)
    (self : Reasoner.t) (w : W) :
  Reasoner.waiting_for_path_selection self = false ->
  Reasoner.first_pattern Reasoner.path_patterns user_input = Some path ->
  path_exists path && path_isdir path = false ->
  Reasoner.analyze max_str_digits (S depth) user_input (self, w)
  = (Ok (Reasoner.bad_path_question path),
     (Reasoner.set_original_request user_input self, w)).
Proof.
  intros Hwait Hpat Hdir.
  rewrite analyze_not_waiting, analyze_request_unfold by done.
  unfold Reasoner.extract_path. rewrite Hpat. cbn [fst snd].
  apply first_pattern_not_sentinel in Hpat as [Hs Hne].
  unfold Reasoner.after_extraction.
  assert (eqs path Reasoner.AMBIGUOUS = false) as -> by by apply eqs_false.
  assert (is_nil path = false) as -> by by destruct path.
  cbn [negb]. rewrite orb_true_r.
  assert (negb (path_exists path) || negb (path_isdir path) = true) as ->.
  { apply andb_false_iff in Hdir as [-> | ->]; [done|]. apply orb_true_r. }
  done.
Qed.

Lemma X15_witness :
  Reasoner.is_project_request $"write a loader for /etc/nowhere" = false
  /\ Reasoner.analyze (os := Demo.os) (sv := Demo.sv) 4300 1
       $"write a loader for /etc/nowhere" (Reasoner.init, [])
     = (Ok (Reasoner.bad_path_question $"/etc/nowhere"),
        (Reasoner.set_original_request $"write a loader for /etc/nowhere"
           Reasoner.init, [])).
Proof.
  split; [vm_compute; reflexivity|].
  apply (X15_path_found_is_validated_first (os := Demo.os) (sv := Demo.sv));
    vm_compute; reflexivity.
Defined.

(** * The numbers of the question and the selection *)

Section NumberedChoice.

Context {os : OsPath}.
Variable max_str_digits : nat.

Lemma numbered_lookup (paths : list str) :
  forall (i k : nat) (p : str),
    paths !! k = Some p ->
    Reasoner.numbered i paths !! k
    = Some (Reasoner.str_of_nat (i + k + 1) ++ $". " ++ p).
Proof.
  induction paths as [|q paths IH]; intros i k p Hk; [done|].
  destruct k as [|k]; cbn [Reasoner.numbered].
  - injection Hk as ->. by rewrite Nat.add_0_r.
  - specialize (IH (S i) k p Hk).
    replace (i + S k + 1)%nat with (S i + k + 1)%nat by lia. exact IH.
Qed.

Ltac digit_step IH :=
  cbn [NilEmpty.string_of_uint list_ascii_of_string int_digits
       Nat.of_uint_acc length];
  match goal with
  | |- context [is_digit ?c] => change (is_digit c) with true
  end;
  cbn match;
  match goal with
  | |- int_digits ?a _ _ _ = Some (Z.of_nat (Nat.of_uint_acc _ ?b), _) =>
      replace a with (Z.of_nat b)
        by (rewrite Nat.tail_mul_spec; unfold digit_val; cbn; lia)
  end;
  rewrite IH; f_equal; f_equal; lia.

Lemma int_digits_uint (d : Decimal.uint) :
  forall (acc n : nat),
    int_digits (Z.of_nat acc) n true
      (list_ascii_of_string (NilEmpty.string_of_uint d))
    = Some (Z.of_nat (Nat.of_uint_acc d acc),
            (n + length (list_ascii_of_string (NilEmpty.string_of_uint d)))%nat).
Proof.
  induction d as [|d IH|d IH|d IH|d IH|d IH|d IH|d IH|d IH|d IH|d IH];
    intros acc n.
  - cbn. by rewrite Nat.add_0_r.
  - digit_step IH.
  - digit_step IH.
  - digit_step IH.
  - digit_step IH.
  - digit_step IH.
  - digit_step IH.
  - digit_step IH.
  - digit_step IH.
  - digit_step IH.
  - digit_step IH.
Qed.

Lemma int_digits_str_of_nat (m : nat) (b : bool) :
  int_digits 0 0 b (Reasoner.str_of_nat m)
  = Some (Z.of_nat m, length (Reasoner.str_of_nat m)).
Proof.
  unfold Reasoner.str_of_nat.
  rewrite <- (DecimalNat.Unsigned.of_to m) at 2.
  unfold Nat.of_uint. generalize (Nat.to_uint m) as d. intros d.
  pose proof (int_digits_uint d 0 0) as H. cbn [Nat.add Z.of_nat] in H.
  destruct d; [by destruct b|..]; cbn [NilZero.string_of_uint];
    (destruct b; [exact H|]);
    cbn [NilEmpty.string_of_uint list_ascii_of_string int_digits] in H |- *;
    exact H.
Qed.

Lemma uint_digits (d : Decimal.uint) (c : ascii) :
  c ∈ list_ascii_of_string (NilEmpty.string_of_uint d) -> is_digit c = true.
Proof.
  induction d; cbn [NilEmpty.string_of_uint list_ascii_of_string];
    intros H; [by apply elem_of_nil in H|..];
    (apply elem_of_cons in H as [->|H]; [done | by apply IHd]).
Qed.

Lemma str_of_nat_digits (m : nat) (c : ascii) :
  c ∈ Reasoner.str_of_nat m -> is_digit c = true.
Proof.
  unfold Reasoner.str_of_nat. destruct (Nat.to_uint m) eqn:E;
    try (apply uint_digits).
  cbn. intros H. apply elem_of_cons in H as [->|H]; [done|].
  by apply elem_of_nil in H.
Qed.

Lemma str_of_nat_head (m : nat) :
  exists c s, Reasoner.str_of_nat m = c :: s /\ is_digit c = true.
Proof.
  pose proof (str_of_nat_digits m) as H.
  destruct (Reasoner.str_of_nat m) as [|c s] eqn:E.
  - pose proof (int_digits_str_of_nat m false) as Hd. by rewrite E in Hd.
  - exists c, s. split; [done|]. apply H. by left.
Qed.

Lemma digit_not_space (c : ascii) : is_digit c = true -> is_space c = false.
Proof.
  unfold is_digit, is_space. intros H.
  apply andb_true_iff in H as [H1 H2].
  apply N.leb_le in H1. apply N.leb_le in H2.
  repeat match goal with
  | |- context [(?a <=? ?b)%N] =>
      let E := fresh in destruct (N.leb_spec a b) as [E|E]
  | |- context [(?a =? ?b)%N] =>
      let E := fresh in destruct (N.eqb_spec a b) as [E|E]
  end; cbn; try done; lia.
Qed.

Lemma lstrip_no_space (s : str) :
  (forall c, c ∈ s -> is_space c = false) -> lstrip s = s.
Proof.
  destruct s as [|c s]; [done|]. intros H. cbn [lstrip].
  by rewrite (H c) by by left.
Qed.

Lemma strip_no_space (s : str) :
  (forall c, c ∈ s -> is_space c = false) -> strip s = s.
Proof.
  intros H. unfold strip, rstrip. rewrite (lstrip_no_space s H).
  rewrite lstrip_no_space; [by rewrite rev_involutive|].
  intros c Hc. apply H. apply list_elem_of_In, in_rev.
  by apply list_elem_of_In.
Qed.

Lemma py_int_str_of_nat (m : nat) :
  max_str_digits = 0%nat
  \/ (length (Reasoner.str_of_nat m) <= max_str_digits)%nat ->
  py_int max_str_digits (Reasoner.str_of_nat m) = Some (Z.of_nat m).
Proof.
  intros Hlimit. unfold py_int.
  rewrite strip_no_space
    by (intros c Hc; apply digit_not_space; by apply (str_of_nat_digits m)).
  destruct (str_of_nat_head m) as (c & s & E & Hc).
  assert (eqc c "-"%char = false /\ eqc c "+"%char = false) as [Hm Hp].
  { split; apply not_true_is_false; intros Heq; apply eqc_true in Heq;
      subst c; done. }
  rewrite E, Hm, Hp, <- E, int_digits_str_of_nat.
  destruct Hlimit as [-> | Hle]; [done|].
  apply Nat.ltb_ge in Hle. rewrite Hle. by rewrite andb_false_r.
Qed.

End NumberedChoice.

(** X16.  The number printed beside a candidate in the question is the
    answer that selects it: the line at position [k] of the listing is the
    decimal text of [k + 1], a dot, a space and the candidate, and
    [handle_path_selection] on that decimal text returns that candidate and
    clears the selection state (the text being within the interpreter's
    limit on the digits of an integer literal). *)
Theorem X16_listed_number_selects_its_candidate
    {os : OsPath} (max_str_digits : nat) (self : Reasoner.t)
    (k : nat) (candidate : str) :
  Reasoner.ambiguous_paths self !! k = Some candidate ->
  max_str_digits = 0%nat
  \/ (length (Reasoner.str_of_nat (k + 1)) <= max_str_digits)%nat ->
  Reasoner.numbered 0 (Reasoner.ambiguous_paths self) !! k
  = Some (Reasoner.str_of_nat (k + 1) ++ $". " ++ candidate)
  /\ Reasoner.handle_path_selection max_str_digits self
       (Reasoner.str_of_nat (k + 1))
     = (Ok candidate, Reasoner.clear_selection self).
Proof.
  intros Hk Hlimit. split; [by apply (numbered_lookup _ 0 k)|].
  unfold Reasoner.handle_path_selection.
  rewrite py_int_strip, (py_int_str_of_nat _ _ Hlimit).
  pose proof (lookup_lt_Some _ _ _ Hk) as Hlt.
  replace (Z.of_nat (k + 1) - 1) with (Z.of_nat k) by lia.
  assert ((0 <=? Z.of_nat k)
          && (Z.of_nat k <? Z.of_nat (length (Reasoner.ambiguous_paths self)))
          = true) as ->.
  { apply andb_true_iff. split; [apply Z.leb_le | apply Z.ltb_lt]; lia. }
  by rewrite Nat2Z.id, Hk.
Qed.

Lemma X16_witness :
  Reasoner.numbered 0 (Reasoner.ambiguous_paths Demo.awaiting_state) !! 1%nat
  = Some $"2. /srv/app"
  /\ Reasoner.handle_path_selection (os := Demo.os) 4300 Demo.awaiting_state
       $"2"
     = (Ok $"/srv/app", Reasoner.init).
Proof.
  assert (Reasoner.ambiguous_paths Demo.awaiting_state !! 1%nat
          = Some $"/srv/app") as Hk by reflexivity.
  assert (4300 = 0 \/ length (Reasoner.str_of_nat (1 + 1)) <= 4300)%nat
    as Hlimit by (right; vm_compute; lia).
  exact (X16_listed_number_selects_its_candidate (os := Demo.os) 4300
           Demo.awaiting_state 1 $"/srv/app" Hk Hlimit).
Defined.
